(** * XTU first-pass build driver ([tools/xtu-build-new])

  A shallow embedding of [xtu-build.py] (the two-phase driver that emits one
  AST per source file and one function map per build command) and of the
  control flow of [cc-bug-stats.py], together with the properties of the
  loader, the argument filter, the artifact path, the output reset, the
  architecture parse and the phase barrier.

  Conventions.  A Python string is a [string]; one [ascii] stands for one
  code point below 256.  Dictionaries are [gmap]s, the two [*_order] lists
  are Python lists.  Code that can raise returns a sum or an option. *)

From Stdlib Require Import Ascii String ZArith List Bool Lia.
From stdpp Require Import gmap strings list fin_maps.

Local Open Scope string_scope.
#[local] Set Warnings "-clear-no-such-hyp,-register-all".

(** ** Characters and strings *)

Module Str.

Definition LF : ascii := "010"%char.

(** [unicode.isspace] on the code points below 256: this is the set
    [unicode.split()] cuts at (the commands come from [json.load]). *)
Definition is_space (c : ascii) : bool :=
  let n := nat_of_ascii c in
  (((9 <=? n) && (n <=? 13)) || ((28 <=? n) && (n <=? 32))
   || (n =? 133) || (n =? 160))%nat.

(** [str.isspace] of a byte string, used by [str.strip()] on the captured
    output of a subprocess. *)
Definition is_bspace (c : ascii) : bool :=
  let n := nat_of_ascii c in
  (((9 <=? n) && (n <=? 13)) || (n =? 32))%nat.

(** ASCII lower-casing, what [re.IGNORECASE] compares with. *)
Definition lower (c : ascii) : ascii :=
  let n := nat_of_ascii c in
  if ((65 <=? n) && (n <=? 90))%nat then ascii_of_nat (n + 32) else c.

Fixpoint contains_char (c : ascii) (s : string) : bool :=
  match s with
  | EmptyString => false
  | String d s' => Ascii.eqb c d || contains_char c s'
  end.

Fixpoint rev_acc (s acc : string) : string :=
  match s with
  | EmptyString => acc
  | String c s' => rev_acc s' (String c acc)
  end.

Definition rev (s : string) : string := rev_acc s EmptyString.

(** [s.startswith(p)] *)
Fixpoint startswith (p s : string) : bool :=
  match p, s with
  | EmptyString, _ => true
  | String a p', String b s' => Ascii.eqb a b && startswith p' s'
  | String _ _, EmptyString => false
  end.

(** [s.endswith(p)]: [p] is [s] or ends the tail of [s]. *)
Fixpoint endswith (p s : string) : bool :=
  String.eqb p s
  || match s with
     | EmptyString => false
     | String _ s' => endswith p s'
     end.

Fixpoint lower_str (s : string) : string :=
  match s with
  | EmptyString => EmptyString
  | String c s' => String (lower c) (lower_str s')
  end.

(** [s[1:]] *)
Definition tail (s : string) : string :=
  match s with
  | EmptyString => EmptyString
  | String _ s' => s'
  end.

(** [s.split()]: maximal runs of non-space characters, in order.  [cur]
    holds the characters of the token being read, most recent first. *)
Fixpoint split_acc (cur : string) (s : string) : list string :=
  match s with
  | EmptyString =>
      match cur with EmptyString => [] | _ => [rev cur] end
  | String c s' =>
      if is_space c then
        match cur with
        | EmptyString => split_acc EmptyString s'
        | _ => rev cur :: split_acc EmptyString s'
        end
      else split_acc (String c cur) s'
  end.

Definition split (s : string) : list string := split_acc EmptyString s.

(** [string.join(l, sep)] *)
Fixpoint join (sep : string) (l : list string) : string :=
  match l with
  | [] => EmptyString
  | [x] => x
  | x :: l' => x ++ sep ++ join sep l'
  end.

(** [s.lstrip()] and [s.strip()] of a byte string. *)
Fixpoint lstrip (s : string) : string :=
  match s with
  | EmptyString => EmptyString
  | String c s' => if is_bspace c then lstrip s' else s
  end.

Definition strip (s : string) : string := rev (lstrip (rev (lstrip s))).

(** [s.rfind(c)] for a one-character needle: the index of the last
    occurrence, [-1] when there is none. *)
Fixpoint rfind_from (c : ascii) (s : string) (i : Z) (last : Z) : Z :=
  match s with
  | EmptyString => last
  | String d s' => rfind_from c s' (i + 1) (if Ascii.eqb c d then i else last)
  end.

Definition rfind (c : ascii) (s : string) : Z := rfind_from c s 0 (-1).

Fixpoint drop (n : nat) (s : string) : string :=
  match n, s with
  | O, _ => s
  | S n', String _ s' => drop n' s'
  | S _, EmptyString => EmptyString
  end.

(** [s[i:]], with Python's reading of a negative start. *)
Definition slice_from (i : Z) (s : string) : string :=
  let len := Z.of_nat (String.length s) in
  let start := if (i <? 0)%Z then Z.max 0 (len + i) else i in
  drop (Z.to_nat start) s.

(** [s.find(c)] for a one-character needle: the index of the first
    occurrence, [-1] when there is none. *)
Fixpoint find_from (c : ascii) (s : string) (i : Z) : Z :=
  match s with
  | EmptyString => (-1)%Z
  | String d s' => if Ascii.eqb c d then i else find_from c s' (i + 1)
  end.

Definition find (c : ascii) (s : string) : Z := find_from c s 0.

Fixpoint take (n : nat) (s : string) : string :=
  match n, s with
  | S n', String c s' => String c (take n' s')
  | _, _ => EmptyString
  end.

(** [s[:i]] for [0 <= i]. *)
Definition slice_to (i : Z) (s : string) : string := take (Z.to_nat i) s.

(** [s.rstrip(c)] for one character, by way of the same on the left. *)
Fixpoint lstrip_char (c : ascii) (s : string) : string :=
  match s with
  | EmptyString => EmptyString
  | String d s' => if Ascii.eqb c d then lstrip_char c s' else s
  end.

Definition rstrip_char (c : ascii) (s : string) : string :=
  rev (lstrip_char c (rev s)).

(** [needle in s] *)
Fixpoint isin (needle s : string) : bool :=
  startswith needle s
  || match s with
     | EmptyString => false
     | String _ s' => isin needle s'
     end.

End Str.

(** ** The regular expressions the driver uses

  [re.compile(p, re.IGNORECASE).match(s)]: the match is anchored at the
  start of [s]; [.] takes any character but a line feed; [$] holds at the
  end of [s] and also just before a line feed that ends [s]. *)

Module Re.

Inductive regex : Type :=
| AnyStar                      (* .*   *)
| Chr (c : ascii)              (* one literal character *)
| Seq (r1 r2 : regex)
| Alt (r1 r2 : regex)
| Dollar                       (* $    *)
| Eps.                         (* the empty word *)

(** A literal word, one [Chr] per character. *)
Fixpoint lit (s : string) : regex :=
  match s with
  | EmptyString => Eps
  | String c s' => Seq (Chr c) (lit s')
  end.

Definition chr_eq (ignorecase : bool) (c d : ascii) : bool :=
  if ignorecase then Ascii.eqb (Str.lower c) (Str.lower d) else Ascii.eqb c d.

Definition at_dollar (s : string) : bool :=
  match s with
  | EmptyString => true
  | String c EmptyString => Ascii.eqb c Str.LF
  | _ => false
  end.

(** Backtracking over [.*]: the continuation [k] is tried after every
    possible length; as only acceptance is observed the order is free. *)
Fixpoint any_star (k : string -> bool) (s : string) : bool :=
  match s with
  | EmptyString => k EmptyString
  | String c s' =>
      (if Ascii.eqb c Str.LF then false else any_star k s') || k s
  end.

Fixpoint run (ic : bool) (r : regex) (k : string -> bool) (s : string) : bool :=
  match r with
  | AnyStar => any_star k s
  | Chr c =>
      match s with
      | EmptyString => false
      | String d s' => chr_eq ic c d && k s'
      end
  | Seq r1 r2 => run ic r1 (run ic r2 k) s
  | Alt r1 r2 => run ic r1 k s || run ic r2 k s
  | Dollar => at_dollar s && k s
  | Eps => k s
  end.

(** [pattern.match(s)] as a truth value. *)
Definition matches (ic : bool) (r : regex) (s : string) : bool :=
  run ic r (fun _ => true) s.

End Re.

(** [src_pattern = re.compile(".*\.(cc|c|cxx|cpp)$", re.IGNORECASE)] *)
Definition src_pattern : Re.regex :=
  Re.Seq Re.AnyStar
    (Re.Seq (Re.Chr ".")
       (Re.Seq
          (Re.Alt (Re.lit "cc")
             (Re.Alt (Re.lit "c") (Re.Alt (Re.lit "cxx") (Re.lit "cpp"))))
          Re.Dollar)).

(** [src_pattern.match(s)] used as a condition. *)
Definition src_pattern_match (s : string) : bool :=
  Re.matches true src_pattern s.

(** ** The compilation database and the four relations (lines 32-46) *)

(** One build step of the JSON compilation database: [step['file']] and
    [step['command']]. *)
Record step : Type := Step { file : string; command : string }.

Record relations : Type := Relations {
  src_2_cmd : gmap string string;
  src_order : list string;
  cmd_2_src : gmap string (list string);
  cmd_order : list string
}.

Definition no_relations : relations :=
  {| src_2_cmd := ∅; src_order := []; cmd_2_src := ∅; cmd_order := [] |}.

(** [if step['file'] not in src_2_cmd : ...] *)
Definition record_source (st : relations) (r : step) : relations :=
  match src_2_cmd st !! file r with
  | None =>
      {| src_2_cmd := <[file r := command r]> (src_2_cmd st);
         src_order := (src_order st ++ [file r])%list;
         cmd_2_src := cmd_2_src st;
         cmd_order := cmd_order st |}
  | Some _ => st
  end.

(** [if step['command'] not in cmd_2_src : ... else : ...append(...)] *)
Definition record_command (st : relations) (r : step) : relations :=
  match cmd_2_src st !! command r with
  | None =>
      {| src_2_cmd := src_2_cmd st;
         src_order := src_order st;
         cmd_2_src := <[command r := [file r]]> (cmd_2_src st);
         cmd_order := (cmd_order st ++ [command r])%list |}
  | Some sources =>
      {| src_2_cmd := src_2_cmd st;
         src_order := src_order st;
         cmd_2_src :=
           <[command r := (sources ++ [file r])%list]> (cmd_2_src st);
         cmd_order := cmd_order st |}
  end.

(** The body of [for step in buildlog]. *)
Definition load_step (st : relations) (r : step) : relations :=
  if src_pattern_match (file r) then record_command (record_source st r) r
  else st.

Definition load (buildlog : list step) : relations :=
  fold_left load_step buildlog no_relations.

(** ** [get_command_arguments] (lines 54-62) *)

(** One turn of [for arg in cmd.split()], on the pair
    [(had_command, args)]. *)
Definition arg_step (acc : bool * list string) (arg : string)
  : bool * list string :=
  let '(had_command, args) := acc in
  let args' :=
    if had_command && negb (src_pattern_match arg) then (args ++ [arg])%list
    else args in
  let had_command' :=
    if negb had_command && (Str.find "=" arg =? -1)%Z then true
    else had_command in
  (had_command', args').

Definition get_command_arguments (cmd : string) : list string :=
  snd (fold_left arg_step (Str.split cmd) (false, [])).

(** ** Paths ([posixpath]) *)

(** [os.path.join(a, b)] *)
Definition os_path_join (a b : string) : string :=
  if Str.startswith "/" b then b
  else if String.eqb a "" || Str.endswith "/" a then a ++ b
  else a ++ "/" ++ b.

(** [os.path.dirname(p)] *)
Definition os_path_dirname (p : string) : string :=
  let i := (Str.rfind "/" p + 1)%Z in
  let head := Str.slice_to i p in
  if negb (String.eqb head "")
     && negb (String.eqb (Str.rstrip_char "/" head) "")
  then Str.rstrip_char "/" head
  else head.

(** ** Configuration (lines 14-26) *)

Record mainargs : Type := Mainargs {
  buildlog_name : string;
  xtuindir : string;
  threads : nat;
  verbose : bool;
  clang_path_arg : string
}.

(** [clang_path] after [if not clang_path.endswith('/') : clang_path += "/"]. *)
Definition clang_path (a : mainargs) : string :=
  if Str.endswith "/" (clang_path_arg a) then clang_path_arg a
  else clang_path_arg a ++ "/".

(** ** Exceptions and the outside world *)

Inductive exn : Type :=
| IOError | ValueError | KeyError | OSError | CalledProcessError
| TypeError | AttributeError | IndexError | NameError | ZeroDivisionError.

(** What a worker does to the outside. *)
Inductive action : Type :=
| CheckOutput (cmdline : string)   (* subprocess.check_output(.., shell=True) *)
| Makedirs (dir : string)          (* os.makedirs *)
| Call (cmdline : string).         (* subprocess.call(.., shell=True) *)

(** The answers of the outside world to [generate_ast]:
    [check_output] is the captured output of a command run with
    [subprocess.check_output], [None] when it raises;
    [realpath] is [os.path.realpath];
    [makedirs] says whether [os.makedirs] returns without an [OSError];
    [isdir] is [os.path.isdir] asked after a failed [os.makedirs];
    [unlink_denied] says whether the system refuses to unlink a file of
    that name (no write permission on its directory, a read-only file
    system and the like), so that [os.remove] raises [OSError] on it. *)
Record world : Type := World {
  check_output : string -> option string;
  realpath : string -> string;
  makedirs : string -> bool;
  isdir : string -> bool;
  unlink_denied : string -> bool
}.

(** ** [generate_ast] (lines 64-83) *)

(** [arch_output[arch_output.rfind('@')+1:].strip()] *)
Definition arch_of_output (arch_output : string) : string :=
  Str.strip (Str.slice_from (Str.rfind "@" arch_output + 1) arch_output).

(** [os.path.join(xtuindir, os.path.join("/ast/" + arch, real[1:] + ".ast")[1:])]
    where [real] is [os.path.realpath(source)]. *)
Definition ast_path (xtudir arch real : string) : string :=
  os_path_join xtudir
    (Str.tail (os_path_join ("/ast/" ++ arch) (Str.tail real ++ ".ast"))).

Definition arch_command (a : mainargs) (args : list string) (source : string)
  : string :=
  clang_path a ++ "clang-cmdline-arch-extractor " ++ Str.join " " args
  ++ " " ++ source.

Definition ast_command (a : mainargs) (args : list string)
  (source path : string) : string :=
  clang_path a ++ "clang -emit-ast " ++ Str.join " " args ++ " -w " ++ source
  ++ " -o " ++ path.

(** The body of [generate_ast] once [cmd = src_2_cmd[source]] is known:
    the actions of the task, in order, and the exception that ends it early
    if there is one.  The echo of the command lines in verbose mode is left
    out. *)
Definition emit_ast (w : world) (a : mainargs) (cmd source : string)
  : list action * option exn :=
  let args := get_command_arguments cmd in
  let arch_cmd := arch_command a args source in
  match check_output w arch_cmd with
  | None => ([CheckOutput arch_cmd], Some CalledProcessError)
  | Some arch_output =>
      let arch := arch_of_output arch_output in
      let path := ast_path (xtuindir a) arch (realpath w source) in
      let dir := os_path_dirname path in
      if makedirs w dir || isdir w dir then
        ([CheckOutput arch_cmd; Makedirs dir;
          Call (ast_command a args source path)], None)
      else ([CheckOutput arch_cmd; Makedirs dir], Some OSError)
  end.

Definition generate_ast (w : world) (a : mainargs) (st : relations)
  (source : string) : list action * option exn :=
  match src_2_cmd st !! source with
  | None => ([], Some KeyError)
  | Some cmd => emit_ast w a cmd source
  end.

(** ** [map_functions] (lines 85-91) *)

Definition funcmap_command (a : mainargs) (sources args : list string)
  : string :=
  clang_path a ++ "clang-func-mapping --xtu-dir " ++ xtuindir a ++ " "
  ++ Str.join " " sources ++ " -- " ++ Str.join " " args.

Definition map_functions (a : mainargs) (st : relations) (command : string)
  : list action * option exn :=
  let args := get_command_arguments command in
  match cmd_2_src st !! command with
  | None => ([], Some KeyError)
  | Some sources => ([Call (funcmap_command a sources args)], None)
  end.

(** The units of work handed to the two pools, in submission order. *)
Definition phase1 (w : world) (a : mainargs) (st : relations)
  : list (list action * option exn) :=
  map (generate_ast w a st) (src_order st).

Definition phase2 (a : mainargs) (st : relations)
  : list (list action * option exn) :=
  map (map_functions a st) (cmd_order st).

(** ** [clear_file] and the reset of the aggregate outputs
    (lines 48-52 and 93-95) *)

(** What a path names in the file system.  The file system is a map from
    the names the script uses, as it spells them, to what they name. *)
Inductive node : Type :=
| File (data : string)
| Dir.

(** [os.remove(filename)]: unlinks a file; raises [OSError] when nothing
    has that name, when the name is a directory, and when the system
    refuses to unlink the file, which then stays. *)
Definition os_remove (w : world) (fs : gmap string node) (filename : string)
  : gmap string node * option exn :=
  match fs !! filename with
  | Some (File _) =>
      if unlink_denied w filename then (fs, Some OSError)
      else (delete filename fs, None)
  | Some Dir => (fs, Some OSError)
  | None => (fs, Some OSError)
  end.

(** [try : os.remove(filename) except OSError: pass] *)
Definition clear_file (w : world) (fs : gmap string node) (filename : string)
  : gmap string node * option exn :=
  match os_remove w fs filename with
  | (fs', Some OSError) => (fs', None)
  | (fs', other) => (fs', other)
  end.

(** Statements in sequence: an exception ends the sequence. *)
Definition and_then (r : gmap string node * option exn)
  (k : gmap string node -> gmap string node * option exn)
  : gmap string node * option exn :=
  match r with
  | (fs, None) => k fs
  | (fs, Some e) => (fs, Some e)
  end.

Definition aggregate_outputs (a : mainargs) : list string :=
  [xtuindir a ++ "/cfg.txt"; xtuindir a ++ "/definedFns.txt";
   xtuindir a ++ "/externalFns.txt"].

(** The three [clear_file] calls of lines 93-95. *)
Definition reset_outputs (w : world) (a : mainargs) (fs : gmap string node)
  : gmap string node * option exn :=
  and_then (clear_file w fs (xtuindir a ++ "/cfg.txt")) (fun fs1 =>
  and_then (clear_file w fs1 (xtuindir a ++ "/definedFns.txt")) (fun fs2 =>
  clear_file w fs2 (xtuindir a ++ "/externalFns.txt"))).

(** ** The driver up to the pools (lines 28-30, 93-95) *)

Section Driver.

(** [json.load] on the text of the build log: [None] when it raises
    [ValueError]; otherwise the array of records.  The build logs looked at
    are arrays of objects whose [file] and [command] are texts; a build log
    of another shape makes the loop of lines 37-46 raise and is outside
    this definition. *)
Variable json_load : string -> option (list step).

(** [open(name, 'r')] followed by reading: [IOError] unless [name] is a
    file. *)
Definition open_read (fs : gmap string node) (name : string) : exn + string :=
  match fs !! name with
  | Some (File data) => inr data
  | _ => inl IOError
  end.

(** What a run that reaches its end has done: the relations it loaded, the
    file system after the reset, and the tasks given to the two pools.  An
    exception inside a task stays in its result: nothing reads the results
    of [apply_async]. *)
Record run : Type := Run {
  loaded : relations;
  fs_after_reset : gmap string node;
  ast_tasks : list (list action * option exn);
  funcmap_tasks : list (list action * option exn)
}.

(** The script from line 28 on, up to the creation of the pools: [inl e]
    is the exception that ends the process.  The number of workers is the
    default one; one given with [-j] reaches [Pool] as a text, not as a
    number, and is outside this definition. *)
Definition xtu_build (w : world) (a : mainargs) (fs : gmap string node)
  : exn + run :=
  match open_read fs (buildlog_name a) with
  | inl e => inl e
  | inr data =>
      match json_load data with
      | None => inl ValueError
      | Some buildlog =>
          let st := load buildlog in
          match reset_outputs w a fs with
          | (_, Some e) => inl e
          | (fs', None) =>
              inr {| loaded := st;
                     fs_after_reset := fs';
                     ast_tasks := phase1 w a st;
                     funcmap_tasks := phase2 a st |}
          end
      end
  end.

End Driver.

(** ** The two pools (lines 97-108) *)

Inductive phase : Type := Phase1 | Phase2.

(** What an observer of the workers sees. *)
Inductive event : Type :=
| Begin (ph : phase) (task : string)
| End (ph : phase) (task : string).

(** A [multiprocessing.Pool]: the tasks submitted and not yet taken by a
    worker, oldest first, and the tasks that workers are running. *)
Record pool : Type := Pool { queue : list string; running : list string }.

(** Where the driver stands. *)
Inductive pc : Type :=
| Submit1 (todo : list string)   (* line 98-99, the sources left to submit *)
| Join1                          (* line 100-101 *)
| Submit2 (todo : list string)   (* line 105-106 *)
| Join2                          (* line 107-108 *)
| Exited.

Record sys : Type := Sys {
  at_pc : pc;
  ast_workers : pool;
  funcmap_workers : pool;
  trace : list event             (* oldest first *)
}.

Definition pools_init (st : relations) : sys :=
  {| at_pc := Submit1 (src_order st);
     ast_workers := Pool [] [];
     funcmap_workers := Pool [] [];
     trace := [] |}.

(** One step of the driver or of a worker.  [apply_async] puts a task in
    the queue; a worker takes the oldest task when fewer than [threads]
    run; a running task ends at any time (its subprocess calls block it
    until they return); [join] returns once the queue is empty and nothing
    runs. *)
Inductive pool_step (threads : nat) (st : relations) : sys -> sys -> Prop :=
| submit1 s todo p1 p2 tr :
    pool_step threads st
      (Sys (Submit1 (s :: todo)) p1 p2 tr)
      (Sys (Submit1 todo) (Pool (queue p1 ++ [s])%list (running p1)) p2 tr)
| close1 p1 p2 tr :
    pool_step threads st (Sys (Submit1 []) p1 p2 tr) (Sys Join1 p1 p2 tr)
| join1 p2 tr :
    pool_step threads st
      (Sys Join1 (Pool [] []) p2 tr)
      (Sys (Submit2 (cmd_order st)) (Pool [] []) p2 tr)
| submit2 c todo p1 p2 tr :
    pool_step threads st
      (Sys (Submit2 (c :: todo)) p1 p2 tr)
      (Sys (Submit2 todo) p1 (Pool (queue p2 ++ [c])%list (running p2)) tr)
| close2 p1 p2 tr :
    pool_step threads st (Sys (Submit2 []) p1 p2 tr) (Sys Join2 p1 p2 tr)
| join2 p1 tr :
    pool_step threads st (Sys Join2 p1 (Pool [] []) tr)
      (Sys Exited p1 (Pool [] []) tr)
| start1 here s q r p2 tr :
    length r < threads ->
    pool_step threads st
      (Sys here (Pool (s :: q) r) p2 tr)
      (Sys here (Pool q (s :: r)) p2 (tr ++ [Begin Phase1 s])%list)
| end1 here s q r1 r2 p2 tr :
    pool_step threads st
      (Sys here (Pool q (r1 ++ s :: r2)%list) p2 tr)
      (Sys here (Pool q (r1 ++ r2)%list) p2 (tr ++ [End Phase1 s])%list)
| start2 here c q r p1 tr :
    length r < threads ->
    pool_step threads st
      (Sys here p1 (Pool (c :: q) r) tr)
      (Sys here p1 (Pool q (c :: r)) (tr ++ [Begin Phase2 c])%list)
| end2 here c q r1 r2 p1 tr :
    pool_step threads st
      (Sys here p1 (Pool q (r1 ++ c :: r2)%list) tr)
      (Sys here p1 (Pool q (r1 ++ r2)%list) (tr ++ [End Phase2 c])%list).

(** The barrier on a trace: whenever a Phase 2 task begins, every source
    of [src_order] has had its Phase 1 task end before. *)
Definition barrier (st : relations) (tr : list event) : Prop :=
  forall pre c post,
    tr = (pre ++ Begin Phase2 c :: post)%list ->
    forall x, x ∈ src_order st -> End Phase1 x ∈ pre.

(** The sources the driver has still to submit. *)
Definition todo1 (l : pc) : list string :=
  match l with
  | Submit1 todo => todo
  | _ => []
  end.

(** What holds in every state the pools can reach. *)
Record pools_inv (st : relations) (s : sys) : Prop := PoolsInv {
  inv_accounted :
    forall x, x ∈ src_order st ->
              x ∈ todo1 (at_pc s) \/ x ∈ queue (ast_workers s)
              \/ x ∈ running (ast_workers s) \/ End Phase1 x ∈ trace s;
  inv_phase :
    match at_pc s with
    | Submit1 _ | Join1 =>
        funcmap_workers s = Pool [] []
        /\ forall c, Begin Phase2 c ∉ trace s
    | _ => ast_workers s = Pool [] []
    end;
  inv_barrier : barrier st (trace s)
}.

(** ** The reporting tool [cc-bug-stats.py] *)

(** A value read by [json.loads]; an object lists its members in the
    order the dictionary iterates them. *)
Inductive json : Type :=
| JNull
| JBool (b : bool)
| JNum (n : Z)
| JStr (s : string)
| JList (l : list json)
| JDict (members : list (string * json)).

(** How the process ends: it runs to its last line, it calls [sys.exit],
    or an exception nobody catches ends it. *)
Inductive outcome : Type :=
| Finished
| Exit (code : Z)
| Uncaught (e : exn).

(** The run selector of the command line ([-n], [-p] or [-a]). *)
Inductive selector : Type :=
| Names (names : list string)
| Project (project : string)
| All.

Record stats_args : Type := StatsArgs {
  host : string;
  port : string;
  selected : selector;
  histogram : bool
}.

(** [cc_command_builder] (lines 112-117) *)
Definition cc_command_builder (args : stats_args) (cmds extra_args : list string)
  : list string :=
  (["CodeChecker"] ++ cmds ++ extra_args
   ++ ["--host"; host args; "--port"; port args] ++ ["-o"; "json"])%list.

(** [dict[key]] on the members of an object. *)
Fixpoint member (key : string) (members : list (string * json)) : option json :=
  match members with
  | [] => None
  | (k, v) :: rest => if String.eqb k key then Some v else member key rest
  end.

(** A list comprehension [[f(x) for x in l]] whose body can raise. *)
Fixpoint comprehension {A B : Type} (f : A -> exn + B) (l : list A)
  : exn + list B :=
  match l with
  | [] => inr []
  | x :: rest =>
      match f x with
      | inl e => inl e
      | inr y =>
          match comprehension f rest with
          | inl e => inl e
          | inr ys => inr (y :: ys)
          end
      end
  end.

(** What iterating over a JSON value yields. *)
Definition iterate (v : json) : exn + list json :=
  match v with
  | JList l => inr l
  | JDict members => inr (List.map (fun kv => JStr (fst kv)) members)
  | JStr s => inr (List.map (fun c => JStr (String c "")) (list_ascii_of_string s))
  | _ => inl TypeError
  end.

(** [p.keys()[0]] *)
Definition first_key (p : json) : exn + string :=
  match p with
  | JDict [] => inl IndexError
  | JDict ((k, _) :: _) => inr k
  | _ => inl AttributeError
  end.

(** [existing_runs = [p.keys()[0] for p in valid_projects_on_server]]
    (line 134) *)
Definition existing_runs (valid_projects_on_server : json) : exn + list string :=
  match iterate valid_projects_on_server with
  | inl e => inl e
  | inr ps => comprehension first_key ps
  end.

(** [res['bugPathLength']] *)
Definition bug_path_length (res : json) : exn + json :=
  match res with
  | JDict members =>
      match member "bugPathLength" members with
      | Some v => inr v
      | None => inl KeyError
      end
  | _ => inl TypeError
  end.

(** [[res['bugPathLength'] for res in results]] (line 238) *)
Definition bug_path_lengths (results : json) : exn + list json :=
  match iterate results with
  | inl e => inl e
  | inr rs => comprehension bug_path_length rs
  end.

Definition is_none (v : json) : bool :=
  match v with
  | JNull => true
  | _ => false
  end.

(** The last element of the sorted list: its greatest string. *)
Fixpoint greatest (l : list string) : option string :=
  match l with
  | [] => None
  | x :: rest =>
      match greatest rest with
      | None => Some x
      | Some y => Some (if String.leb x y then y else x)
      end
  end.

Definition mentions (needle : string) (s : string) : bool := Str.isin needle s.

(** [project_names] (lines 136-168).  With an empty [-n] list or an empty
    [-p] word no branch assigns it, and its first use raises. *)
Definition project_names (args : stats_args) (runs : list string)
  : exn + list string :=
  match selected args with
  | Names (n :: ns) =>
      inr (List.filter (fun p => existsb (String.eqb p) runs) (n :: ns))
  | Names [] => inl NameError
  | Project "" => inl NameError
  | Project project =>
      let candidates := List.filter (mentions project) runs in
      let xtus :=
        List.filter
          (fun p => negb (mentions "noXTU" p) && negb (mentions "noxtu" p))
          candidates in
      let nonxtus :=
        List.filter
          (fun p => negb (negb (mentions "noXTU" p) && negb (mentions "noxtu" p)))
          candidates in
      match greatest xtus, greatest nonxtus with
      | Some x, Some n => inr [x; n]
      | _, _ => inl IndexError
      end
  | All => inr runs
  end.

(** What [parser.parse_args()] (line 83) makes of the command line: the
    arguments, or the end of the process by [argparse] itself, with status
    2 after a usage message (no [--port], no selector or two of them, an
    unknown option) and with status 0 after the help of [-h]. *)
Inductive parsed : Type :=
| Args (args : stats_args)
| Usage
| Help.

Section BugStats.

(** The output of a [CodeChecker] command line (the return code is not
    looked at). *)
Variable call_command : list string -> string.

(** [json.loads]: [None] when it raises [ValueError]. *)
Variable json_loads : string -> option json.

(** [calculate_metrics] and [make_histogram] print; what matters here is
    the exception they end with, if any. *)
Variable calculate_metrics : list json -> option exn.
Variable make_histogram : list json -> option exn.

(** The loop over [project_names] (lines 225-248).  [Histogram] is the
    flag of line 88. *)
Fixpoint results_loop (args : stats_args) (Histogram : bool)
  (projects : list string) : outcome :=
  match projects with
  | [] => Finished
  | project :: rest =>
      match json_loads
              (call_command
                 (cc_command_builder args ["cmd"; "results"] ["--name"; project]))
      with
      | None => results_loop args Histogram rest   (* except ValueError: continue *)
      | Some results =>
          match bug_path_lengths results with
          | inl e => Uncaught e
          | inr lengths =>
              if existsb is_none lengths then Exit 2
              else
                match calculate_metrics lengths with
                | Some e => Uncaught e
                | None =>
                    if Histogram then
                      match make_histogram lengths with
                      | Some e => Uncaught e
                      | None => results_loop args Histogram rest
                      end
                    else results_loop args Histogram rest
                end
          end
      end
  end.

(** The script.  [probe] is what running [CodeChecker] without arguments
    returns (line 37) and [histogram_probe] the same for [histogram.py]
    (line 92), [None] when the program cannot be started. *)
Definition bug_stats (probe histogram_probe : option Z) (args : stats_args)
  : outcome :=
  match probe with
  | None => Exit 1
  | Some r =>
      if negb (r =? 2)%Z then Exit 1
      else
        let Histogram :=
          histogram args
          && match histogram_probe with
             | Some 1%Z => true
             | _ => false
             end in
        let valid_projects_on_server :=
          call_command (cc_command_builder args ["cmd"; "runs"] []) in
        if mentions "Connection refused" valid_projects_on_server
           || mentions "Name or service not known" valid_projects_on_server
        then Exit 1
        else
          match json_loads valid_projects_on_server with
          | None => Exit 1
          | Some parsed =>
              match existing_runs parsed with
              | inl e => Uncaught e
              | inr runs =>
                  match project_names args runs with
                  | inl e => Uncaught e
                  | inr projects => results_loop args Histogram projects
                  end
              end
          end
  end.

(** The script from its first statement: the probe of [CodeChecker]
    (lines 35-46) comes before the command line is parsed (line 83). *)
Definition cc_bug_stats (probe histogram_probe : option Z) (argv : parsed)
  : outcome :=
  match probe with
  | None => Exit 1
  | Some r =>
      if negb (r =? 2)%Z then Exit 1
      else
        match argv with
        | Usage => Exit 2
        | Help => Exit 0
        | Args args => bug_stats probe histogram_probe args
        end
  end.

End BugStats.

(** The status the process ends with: that of [sys.exit], 0 at the end of
    the script, and 1 when Python ends on an uncaught exception. *)
Definition status (o : outcome) : Z :=
  match o with
  | Finished => 0
  | Exit code => code
  | Uncaught _ => 1
  end.

(** The process did not reach its last line. *)
Definition aborted (o : outcome) : Prop := o <> Finished.

(** ** Notions used in the statements *)

(** *** The source pattern and the tokens *)

(** "Ends in .c, .cc, .cxx or .cpp, case-insensitively". *)
Definition source_suffixes : list string := [".c"; ".cc"; ".cxx"; ".cpp"].

Definition has_source_suffix (s : string) : bool :=
  existsb (fun e => Str.endswith e (Str.lower_str s)) source_suffixes.

(** What is left of [s] after the word [w], read without regard to
    case, if [s] starts with it. *)
Fixpoint strip_prefix_ci (w s : string) : option string :=
  match w, s with
  | EmptyString, _ => Some s
  | String a w', String b s' =>
      if Re.chr_eq true a b then strip_prefix_ci w' s' else None
  | String _ _, EmptyString => None
  end.

(** The part of the pattern after the leading [.*], on the text [q]. *)
Definition after_star (q : string) : bool :=
  Re.run true
    (Re.Seq (Re.Chr ".")
       (Re.Seq
          (Re.Alt (Re.lit "cc")
             (Re.Alt (Re.lit "c") (Re.Alt (Re.lit "cxx") (Re.lit "cpp"))))
          Re.Dollar))
    (fun _ => true) q.

(** No character of [s] is white space for [split]. *)
Fixpoint no_space (s : string) : bool :=
  match s with
  | EmptyString => true
  | String c s' => negb (Str.is_space c) && no_space s'
  end.

(** The tokens that are left once the leading ones are dropped as long as
    [p] holds. *)
Fixpoint drop_while {A : Type} (p : A -> bool) (l : list A) : list A :=
  match l with
  | [] => []
  | x :: l' => if p x then drop_while p l' else l
  end.

(** *** The loader *)

(** The records the loader takes in. *)
Definition accepted (db : list step) : list step :=
  List.filter (fun r => src_pattern_match (file r)) db.

(** The records whose file ends in one of the source suffixes. *)
Definition with_source_suffix (db : list step) : list step :=
  List.filter (fun r => has_source_suffix (file r)) db.

(** No file name of the database holds a line feed. *)
Definition no_line_feed (db : list step) : bool :=
  forallb (fun r => negb (Str.contains_char Str.LF (file r))) db.

(** The number of distinct strings of a list. *)
Definition distinct (l : list string) : nat :=
  size (list_to_set l : gset string).

(** The number of (command, source) pairs over all the groups. *)
Definition total_pairs (m : gmap string (list string)) : nat :=
  map_fold (fun _ sources n => length sources + n) 0 m.

(** How often [x] occurs in [l]. *)
Definition occurrences (x : string) (l : list string) : nat :=
  length (List.filter (String.eqb x) l).

(** *** The artifact path *)

(** The path of the specification, read as text:
    xtuOutputDir/ast/<architecture>/<realpath without its first separator>.ast *)
Definition ast_path_formula (xtudir arch real : string) : string :=
  xtudir ++ "/ast/" ++ arch ++ "/" ++ Str.tail real ++ ".ast".

(** What [os.path.realpath] returns: an absolute path that starts with
    exactly one separator. *)
Definition is_realpath (real : string) : bool :=
  Str.startswith "/" real && negb (Str.startswith "/" (Str.tail real)).

(** A directory name as [os.path.join] puts it in front of a relative
    name: a separator is added unless the name is empty or has one. *)
Definition with_sep (d : string) : string :=
  if String.eqb d "" || Str.endswith "/" d then d else d ++ "/".

(** *** The reset *)

(** The file system [clear_file] leaves. *)
Definition cleared (w : world) (fs : gmap string node) (filename : string)
  : gmap string node :=
  match fs !! filename with
  | Some (File _) => if unlink_denied w filename then fs else delete filename fs
  | _ => fs
  end.

(** What a name stands for after the reset, given what it stood for
    before: a file that the system lets go is gone, everything else is as
    it was. *)
Definition after_clear (w : world) (p : string) (before : option node)
  : option node :=
  match before with
  | Some (File d) => if unlink_denied w p then Some (File d) else None
  | other => other
  end.

(** *** The end-to-end scenario *)

(** The database of the end-to-end scenario, for two commands. *)
Definition scenario (CC1 CC2 : string) : list step :=
  [Step "a.cpp" CC1; Step "a.cpp" CC1; Step "b.cpp" CC1; Step "a.cpp" CC2].

(** The subprocesses a list of finished tasks started with
    [subprocess.call]: the AST emissions of Phase 1, the function mapper
    runs of Phase 2. *)
Definition calls (results : list (list action * option exn)) : list string :=
  List.concat
    (List.map
       (fun r =>
          List.concat
            (List.map
               (fun act => match act with Call c => [c] | _ => [] end)
               (fst r)))
       results).

(** The output path of the AST of [source] built with [cmd], for the
    answer of the architecture extractor in [w]. *)
Definition ast_target (w : world) (a : mainargs) (cmd source : string)
  : string :=
  let args := get_command_arguments cmd in
  match check_output w (arch_command a args source) with
  | Some arch_output =>
      ast_path (xtuindir a) (arch_of_output arch_output) (realpath w source)
  | None => ""
  end.

(** *** The reporting tool *)

(** A result record without its path-length metric: the key is not
    there, or its value is [None]. *)
Definition lacks_metric (res : json) : bool :=
  match res with
  | JDict members =>
      match member "bugPathLength" members with
      | None | Some JNull => true
      | Some _ => false
      end
  | _ => false
  end.

(** A service for the examples: it knows one run, [p], and answers the
    results query with a text that is no JSON. *)
Definition quote : string := String (ascii_of_nat 34) "".

Definition runs_text : string := "[{" ++ quote ++ "p" ++ quote ++ ": 1}]".

Definition broken_service (argv : list string) : string :=
  if existsb (String.eqb "runs") argv then runs_text
  else "<html>502 Bad Gateway</html>".

Definition old_service (argv : list string) : string :=
  if existsb (String.eqb "runs") argv then runs_text
  else "[{}]".

(** [json.loads] on the texts of these services. *)
Definition loads_example (text : string) : option json :=
  if String.eqb text runs_text then Some (JList [JDict [("p", JNum 1)]])
  else if String.eqb text "[{}]" then Some (JList [JDict []])
  else None.

(** ** Notions used in the further properties *)

(** The elements of [l] in the order of their first occurrence. *)
Fixpoint nub (l : list string) : list string :=
  match l with
  | [] => []
  | x :: l' => x :: List.filter (fun y => negb (String.eqb x y)) (nub l')
  end.

(** The files of the accepted records that come with the command [c], in
    the order of the records. *)
Definition files_of (c : string) (db : list step) : list string :=
  List.map file (List.filter (fun r => String.eqb (command r) c) (accepted db)).

(** The first and the last character of a text. *)
Definition first_char (s : string) : option ascii :=
  match s with
  | EmptyString => None
  | String c _ => Some c
  end.

Fixpoint last_char (s : string) : option ascii :=
  match s with
  | EmptyString => None
  | String c s' =>
      match last_char s' with
      | Some d => Some d
      | None => Some c
      end
  end.

(** How often the event [e] is in a trace. *)
Definition same_event (e1 e2 : event) : bool :=
  match e1, e2 with
  | Begin Phase1 x, Begin Phase1 y | Begin Phase2 x, Begin Phase2 y
  | End Phase1 x, End Phase1 y | End Phase2 x, End Phase2 y => String.eqb x y
  | _, _ => false
  end.

Definition count_event (e : event) (tr : list event) : nat :=
  length (List.filter (same_event e) tr).

(** The commands the driver has still to submit. *)
Definition todo2 (st : relations) (l : pc) : list string :=
  match l with
  | Submit1 _ | Join1 => cmd_order st
  | Submit2 todo => todo
  | _ => []
  end.

(** The count of every task over the places it can be in, and the count
    of its events. *)
Record pools_count (st : relations) (s : sys) : Prop := PoolsCount {
  count_phase1 :
    forall x,
      occurrences x (todo1 (at_pc s)) + occurrences x (queue (ast_workers s))
      + occurrences x (running (ast_workers s))
      + count_event (End Phase1 x) (trace s)
      = occurrences x (src_order st);
  count_begin1 :
    forall x,
      count_event (Begin Phase1 x) (trace s)
      = occurrences x (running (ast_workers s))
        + count_event (End Phase1 x) (trace s);
  count_phase2 :
    forall c,
      occurrences c (todo2 st (at_pc s))
      + occurrences c (queue (funcmap_workers s))
      + occurrences c (running (funcmap_workers s))
      + count_event (End Phase2 c) (trace s)
      = occurrences c (cmd_order st);
  count_begin2 :
    forall c,
      count_event (Begin Phase2 c) (trace s)
      = occurrences c (running (funcmap_workers s))
        + count_event (End Phase2 c) (trace s);
  count_exited :
    at_pc s = Exited -> funcmap_workers s = Pool [] []
}.

(** A run whose results are read and complete: every record has its
    metric, and the statistics (and the histogram, when it is on) are made
    without an exception. *)
Definition processed (calculate_metrics make_histogram : list json -> option exn)
  (Histogram : bool) (results : json) : Prop :=
  exists lengths,
    bug_path_lengths results = inr lengths
    /\ existsb is_none lengths = false
    /\ calculate_metrics lengths = None
    /\ (Histogram = true -> make_histogram lengths = None).

(** The two classes of runs the [-p] selection tells apart. *)
Definition is_xtu (run : string) : bool :=
  negb (mentions "noXTU" run) && negb (mentions "noxtu" run).

(** * Properties *)

(** ** The definitions on some inputs *)

Example src_pattern_cpp : src_pattern_match "foo.cpp" = true.
Proof. reflexivity. Qed.
Example src_pattern_upper : src_pattern_match "dir/Foo.CXX" = true.
Proof. reflexivity. Qed.
Example src_pattern_header : src_pattern_match "foo.h" = false.
Proof. reflexivity. Qed.
Example split_cmd :
  Str.split "CC -DX=1  foo.cpp -O2 " = ["CC"; "-DX=1"; "foo.cpp"; "-O2"].
Proof. reflexivity. Qed.
Example strip_ex : Str.strip "  x86_64 " = "x86_64".
Proof. reflexivity. Qed.
Example arch_of_output_marker :
  arch_of_output ("triple@x86_64" ++ String Str.LF "") = "x86_64".
Proof. reflexivity. Qed.
Example get_command_arguments_env :
  get_command_arguments "LANG=C CC -DX=1 -c foo.cpp -o foo.o"
  = ["-DX=1"; "-c"; "-o"; "foo.o"].
Proof. reflexivity. Qed.
Example os_path_join_absolute : os_path_join ".xtu" "/ast/x" = "/ast/x".
Proof. reflexivity. Qed.
Example os_path_dirname_ast :
  os_path_dirname ".xtu/ast/x86_64/home/u/a.c.ast" = ".xtu/ast/x86_64/home/u".
Proof. reflexivity. Qed.
Example ast_path_default :
  ast_path ".xtu" "x86_64" "/home/u/a.c" = ".xtu/ast/x86_64/home/u/a.c.ast".
Proof. reflexivity. Qed.
Example project_names_project :
  project_names (StatsArgs "localhost" "8001" (Project "tmux") true)
    ["tmux_noXTU_1"; "tmux_XTU_1"; "vim_XTU"; "tmux_XTU_2"]
  = inr ["tmux_XTU_2"; "tmux_noXTU_1"].
Proof. reflexivity. Qed.

(** ** Strings *)

Lemma find_from_absent c s i :
  (0 <= i)%Z ->
  (Str.find_from c s i =? -1)%Z = negb (Str.contains_char c s).
Proof.
  revert i. induction s as [|d s IH]; intros i Hi; simpl.
  - reflexivity.
  - destruct (Ascii.eqb c d); simpl.
    + apply Z.eqb_neq. lia.
    + apply IH. lia.
Qed.

Lemma find_absent c s :
  (Str.find c s =? -1)%Z = negb (Str.contains_char c s).
Proof. apply find_from_absent. lia. Qed.

Lemma rfind_from_absent c s i last :
  Str.contains_char c s = false -> Str.rfind_from c s i last = last.
Proof.
  revert i last. induction s as [|d s IH]; intros i last H; simpl in *.
  - reflexivity.
  - apply orb_false_iff in H as [Hd Hs]. rewrite Hd. by apply IH.
Qed.

Lemma rfind_absent c s :
  Str.contains_char c s = false -> Str.rfind c s = (-1)%Z.
Proof. apply rfind_from_absent. Qed.

(** ** The source pattern and the suffix test *)

#[local] Arguments Ascii.eqb : simpl never.
#[local] Arguments Str.lower : simpl never.

Lemma existsb_orb {A : Type} (f g : A -> bool) (l : list A) :
  existsb (fun x => f x || g x) l = existsb f l || existsb g l.
Proof.
  induction l as [|x l IH]; simpl; [reflexivity|].
  rewrite IH. destruct (f x), (g x), (existsb f l); reflexivity.
Qed.

Lemma run_lit (w : string) (k : string -> bool) (s : string) :
  Re.run true (Re.lit w) k s
  = match strip_prefix_ci w s with
    | Some rest => k rest
    | None => false
    end.
Proof.
  revert s. induction w as [|a w IH]; intros s; [reflexivity|].
  destruct s as [|b s]; [reflexivity|].
  cbn [Re.lit Re.run strip_prefix_ci]. rewrite IH.
  by destruct (Re.chr_eq true a b).
Qed.

Lemma src_pattern_match_star (s : string) :
  src_pattern_match s = Re.any_star after_star s.
Proof. reflexivity. Qed.

Lemma strip_prefix_dollar (e q : string) :
  Str.lower_str e = e -> Str.contains_char Str.LF q = false ->
  match strip_prefix_ci e q with
  | Some rest => Re.at_dollar rest
  | None => false
  end = String.eqb e (Str.lower_str q).
Proof.
  revert q. induction e as [|a e IH]; intros q He Hq.
  - destruct q as [|c [|c' q]]; try reflexivity.
    simpl in Hq. apply orb_false_iff in Hq as [Hc _].
    cbn [strip_prefix_ci Re.at_dollar].
    rewrite Ascii.eqb_sym. rewrite Hc. reflexivity.
  - destruct q as [|b q]; [reflexivity|].
    simpl in He. injection He as Ha He.
    simpl in Hq. apply orb_false_iff in Hq as [_ Hq].
    cbn [strip_prefix_ci Str.lower_str String.eqb]. unfold Re.chr_eq.
    rewrite Ha. destruct (Ascii.eqb a (Str.lower b)); [by apply IH|reflexivity].
Qed.

Lemma strip_prefix_ci_cons (a b : ascii) (w s : string) :
  strip_prefix_ci (String a w) (String b s)
  = if Re.chr_eq true a b then strip_prefix_ci w s else None.
Proof. reflexivity. Qed.

Lemma after_star_words (q : string) :
  after_star q
  = existsb
      (fun e => match strip_prefix_ci e q with
                | Some rest => Re.at_dollar rest
                | None => false
                end)
      source_suffixes.
Proof.
  destruct q as [|d q]; [reflexivity|].
  unfold after_star, source_suffixes. cbn [Re.run existsb].
  rewrite !run_lit, !strip_prefix_ci_cons.
  destruct (Re.chr_eq true "." d); [|reflexivity].
  cbn [andb Re.run].
  destruct (strip_prefix_ci "cc" q) as [r1|];
    destruct (strip_prefix_ci "c" q) as [r2|];
    destruct (strip_prefix_ci "cxx" q) as [r3|];
    destruct (strip_prefix_ci "cpp" q) as [r4|];
    repeat match goal with
           | |- context [Re.at_dollar ?r] => destruct (Re.at_dollar r)
           end; reflexivity.
Qed.

Lemma after_star_suffix (q : string) :
  Str.contains_char Str.LF q = false ->
  after_star q
  = existsb (fun e => String.eqb e (Str.lower_str q)) source_suffixes.
Proof.
  intros Hq. rewrite after_star_words. unfold source_suffixes.
  cbn [existsb]. by rewrite !strip_prefix_dollar.
Qed.

Lemma has_source_suffix_cons (c : ascii) (s : string) :
  has_source_suffix (String c s)
  = existsb (fun e => String.eqb e (Str.lower_str (String c s)))
      source_suffixes
    || has_source_suffix s.
Proof. unfold has_source_suffix. by rewrite <- existsb_orb. Qed.

(** On a text without a line feed the source pattern is the suffix test. *)
Lemma src_pattern_match_suffix (s : string) :
  Str.contains_char Str.LF s = false ->
  src_pattern_match s = has_source_suffix s.
Proof.
  rewrite src_pattern_match_star.
  induction s as [|c s IH]; intros Hs; [reflexivity|].
  rewrite has_source_suffix_cons, <- after_star_suffix by done.
  simpl in Hs. apply orb_false_iff in Hs as [Hc Hs].
  cbn [Re.any_star]. rewrite Ascii.eqb_sym, Hc, IH by done.
  apply orb_comm.
Qed.

(** The two places where the pattern and the suffix test part: a line
    feed after the suffix is let through by [$], and a line feed before
    the suffix stops [.*]. *)
Example src_pattern_trailing_line_feed :
  src_pattern_match ("a.c" ++ String Str.LF "") = true
  /\ has_source_suffix ("a.c" ++ String Str.LF "") = false.
Proof. by vm_compute. Qed.

Example src_pattern_inner_line_feed :
  src_pattern_match ("a" ++ String Str.LF "b.c") = false
  /\ has_source_suffix ("a" ++ String Str.LF "b.c") = true.
Proof. by vm_compute. Qed.

(** ** The tokens of [split] *)

Lemma no_space_rev_acc (s acc : string) :
  no_space (Str.rev_acc s acc) = no_space s && no_space acc.
Proof.
  revert acc. induction s as [|c s IH]; intros acc; [reflexivity|].
  cbn [Str.rev_acc no_space]. rewrite IH. cbn [no_space].
  destruct (negb (Str.is_space c)), (no_space s), (no_space acc); reflexivity.
Qed.

Lemma split_acc_no_space (cur s : string) :
  no_space cur = true -> Forall (fun t => no_space t = true) (Str.split_acc cur s).
Proof.
  revert cur. induction s as [|c s IH]; intros cur Hcur.
  - cbn [Str.split_acc]. destruct cur; [constructor|].
    constructor; [|constructor]. unfold Str.rev.
    by rewrite no_space_rev_acc, Hcur.
  - cbn [Str.split_acc]. destruct (Str.is_space c) eqn:Ec.
    + destruct cur; [by apply IH|].
      constructor; [|by apply IH]. unfold Str.rev.
      by rewrite no_space_rev_acc, Hcur.
    + apply IH. cbn [no_space]. by rewrite Ec, Hcur.
Qed.

Lemma split_no_space (s : string) :
  Forall (fun t => no_space t = true) (Str.split s).
Proof. by apply split_acc_no_space. Qed.

Lemma no_space_no_line_feed (t : string) :
  no_space t = true -> Str.contains_char Str.LF t = false.
Proof.
  induction t as [|c t IH]; [reflexivity|].
  cbn [no_space Str.contains_char]. intros [Hc Ht]%andb_true_iff.
  rewrite IH by done. rewrite orb_false_r.
  destruct (Ascii.eqb_spec Str.LF c) as [<-|]; [discriminate Hc|reflexivity].
Qed.

Lemma Forall_tl {A : Type} (P : A -> Prop) (l : list A) :
  Forall P l -> Forall P (List.tl l).
Proof. intros H. destruct H; [constructor|done]. Qed.

Lemma Forall_drop_while {A : Type} (P : A -> Prop) (p : A -> bool) (l : list A) :
  Forall P l -> Forall P (drop_while p l).
Proof.
  induction 1 as [|x l Hx Hl IH]; [constructor|].
  simpl. destruct (p x); [done|by constructor].
Qed.

Lemma filter_ext_Forall {A : Type} (P : A -> Prop) (f g : A -> bool)
  (l : list A) :
  (forall x, P x -> f x = g x) -> Forall P l ->
  List.filter f l = List.filter g l.
Proof.
  intros Hfg. induction 1 as [|x l Hx Hl IH]; [reflexivity|].
  simpl. by rewrite (Hfg x Hx), IH.
Qed.

(** ** The argument filter *)

Lemma arg_step_started (l acc : list string) :
  fold_left arg_step l (true, acc)
  = (true, (acc ++ List.filter (fun t => negb (src_pattern_match t)) l)%list).
Proof.
  revert acc. induction l as [|t l IH]; intros acc; simpl.
  - by rewrite app_nil_r.
  - destruct (src_pattern_match t); simpl; rewrite IH.
    + reflexivity.
    + by rewrite <- app_assoc.
Qed.

Lemma arg_step_leading (l : list string) :
  snd (fold_left arg_step l (false, []))
  = List.filter (fun t => negb (src_pattern_match t))
      (List.tl (drop_while (Str.contains_char "=") l)).
Proof.
  induction l as [|t l IH]; simpl; [reflexivity|].
  rewrite find_absent.
  destruct (Str.contains_char "=" t); simpl.
  - apply IH.
  - by rewrite arg_step_started.
Qed.

(** C3: [get_command_arguments] drops the tokens up to and including the
    first one without an equals sign, then drops every token that the source
    pattern matches (for a token: that ends in a source suffix), and keeps
    the others in order; on "CC -DX=1 foo.cpp -O2" the result is
    ["-DX=1"; "-O2"]. *)
Theorem get_command_arguments_filter :
  (forall cmd : string,
      get_command_arguments cmd
      = List.filter (fun t => negb (src_pattern_match t))
          (List.tl (drop_while (Str.contains_char "=") (Str.split cmd))))
  /\ (forall cmd : string,
        get_command_arguments cmd
        = List.filter (fun t => negb (has_source_suffix t))
            (List.tl (drop_while (Str.contains_char "=") (Str.split cmd))))
  /\ get_command_arguments "CC -DX=1 foo.cpp -O2" = ["-DX=1"; "-O2"].
Proof.
  assert (forall cmd : string,
             get_command_arguments cmd
             = List.filter (fun t => negb (src_pattern_match t))
                 (List.tl (drop_while (Str.contains_char "=") (Str.split cmd))))
    as H by (intros cmd; unfold get_command_arguments; apply arg_step_leading).
  split; [exact H|]. split; [|reflexivity].
  intros cmd. rewrite H.
  apply (filter_ext_Forall (fun t => no_space t = true)).
  - intros t Ht. by rewrite src_pattern_match_suffix by by apply no_space_no_line_feed.
  - apply Forall_tl, Forall_drop_while, split_no_space.
Qed.

(** ** The architecture parse *)

Lemma slice_from_0 s : Str.slice_from 0 s = s.
Proof. unfold Str.slice_from. simpl. by destruct s. Qed.

(** C10: when the captured output has no at sign, the architecture is the
    whole output with the white space at both ends removed. *)
Theorem arch_of_output_no_marker (arch_output : string) :
  Str.contains_char "@" arch_output = false ->
  Str.rfind "@" arch_output = (-1)%Z
  /\ arch_of_output arch_output = Str.strip arch_output.
Proof.
  intros H. split; [by apply rfind_absent|].
  unfold arch_of_output. rewrite (rfind_absent _ _ H).
  change (-1 + 1)%Z with 0%Z. by rewrite slice_from_0.
Qed.

Lemma arch_of_output_no_marker_witness :
  Str.contains_char "@" "  armv7l " = false
  /\ Str.rfind "@" "  armv7l " = (-1)%Z
  /\ arch_of_output "  armv7l " = "armv7l".
Proof.
  split; [reflexivity|].
  apply (arch_of_output_no_marker "  armv7l "). reflexivity.
Defined.

(** ** The artifact path *)

Lemma append_cons (c : ascii) (a b : string) :
  String c a ++ b = String c (a ++ b).
Proof. reflexivity. Qed.

Lemma append_nil (b : string) : "" ++ b = b.
Proof. reflexivity. Qed.

Lemma append_assoc (a b c : string) : (a ++ b) ++ c = a ++ b ++ c.
Proof.
  induction a as [|x a IH]; [reflexivity|].
  by rewrite !append_cons, IH.
Qed.

Lemma append_length (a b : string) :
  String.length (a ++ b) = String.length a + String.length b.
Proof.
  induction a as [|x a IH]; [reflexivity|].
  rewrite append_cons. simpl. by rewrite IH.
Qed.

Lemma append_inv_head (a x y : string) : a ++ x = a ++ y -> x = y.
Proof.
  induction a as [|c a IH]; [done|].
  rewrite !append_cons. intros [= H]. auto.
Qed.

Lemma append_inv_tail (x y a : string) : x ++ a = y ++ a -> x = y.
Proof.
  revert y. induction x as [|c x IH]; intros [|d y] H.
  - reflexivity.
  - apply (f_equal String.length) in H.
    rewrite append_nil, append_cons in H. simpl in H.
    rewrite append_length in H. lia.
  - apply (f_equal String.length) in H.
    rewrite append_nil, append_cons in H. simpl in H.
    rewrite append_length in H. lia.
  - rewrite !append_cons in H. injection H as -> H. f_equal. by apply IH.
Qed.

Lemma append_nonempty (a b : string) : b <> "" -> a ++ b <> "".
Proof. destruct a; [done|]. rewrite append_cons. discriminate. Qed.

Lemma endswith_append (p a b : string) :
  b <> "" -> String.length p = 1 ->
  Str.endswith p (a ++ b) = Str.endswith p b.
Proof.
  intros Hb Hp. induction a as [|c a IH]; [reflexivity|].
  rewrite append_cons. simpl.
  rewrite IH. destruct p as [|q [|q' p]]; simpl in Hp; try discriminate.
  simpl. pose proof (append_nonempty a b Hb).
  destruct (a ++ b); [done|]. by destruct (Ascii.eqb q c).
Qed.

Lemma os_path_join_relative (a b : string) :
  Str.startswith "/" b = false -> os_path_join a b = with_sep a ++ b.
Proof.
  intros H. unfold os_path_join, with_sep. rewrite H.
  destruct (String.eqb a "" || Str.endswith "/" a); [reflexivity|].
  by rewrite append_assoc.
Qed.

Lemma with_sep_ast (arch : string) :
  with_sep ("/ast/" ++ arch) = "/ast/" ++ with_sep arch.
Proof.
  unfold with_sep. destruct (String.eqb_spec arch "") as [->|Hne].
  - reflexivity.
  - rewrite (endswith_append "/" "/ast/" arch Hne eq_refl). simpl.
    destruct (Str.endswith "/" arch); reflexivity.
Qed.

Lemma realpath_tail (real : string) :
  is_realpath real = true ->
  real = "/" ++ Str.tail real
  /\ Str.startswith "/" (Str.tail real ++ ".ast") = false.
Proof.
  unfold is_realpath. intros [H1 H2]%andb_true_iff.
  destruct real as [|c real]; [discriminate H1|].
  cbn [Str.startswith Str.tail] in *.
  rewrite andb_true_r in H1. apply Ascii.eqb_eq in H1 as <-.
  split; [reflexivity|].
  apply negb_true_iff in H2. destruct real as [|d real]; [reflexivity|].
  rewrite append_cons. cbn [Str.startswith] in *.
  by rewrite andb_true_r in H2 |- *.
Qed.

(** The closed form of the path the code builds. *)
Lemma ast_path_closed_form (xtudir arch real : string) :
  is_realpath real = true ->
  ast_path xtudir arch real
  = with_sep xtudir ++ "ast/" ++ with_sep arch ++ Str.tail real ++ ".ast".
Proof.
  intros [_ Hrel]%realpath_tail. unfold ast_path.
  rewrite (os_path_join_relative ("/ast/" ++ arch)) by exact Hrel.
  rewrite with_sep_ast. simpl.
  by rewrite os_path_join_relative.
Qed.

Lemma with_sep_plain (d : string) :
  d <> "" -> Str.endswith "/" d = false -> with_sep d = d ++ "/".
Proof.
  intros Hne He. unfold with_sep. rewrite He.
  by destruct (String.eqb_spec d "").
Qed.

(** The claim read as text fails on a directory written with its
    separator, and on an empty directory name. *)
Lemma ast_path_formula_counterexample :
  (ast_path ".xtu/" "x86_64" "/home/u/a.c" = ".xtu/ast/x86_64/home/u/a.c.ast"
   /\ ast_path_formula ".xtu/" "x86_64" "/home/u/a.c"
      = ".xtu//ast/x86_64/home/u/a.c.ast")
  /\ (ast_path "" "x86_64" "/home/u/a.c" = "ast/x86_64/home/u/a.c.ast"
      /\ ast_path_formula "" "x86_64" "/home/u/a.c"
         = "/ast/x86_64/home/u/a.c.ast")
  /\ ~ (forall xtudir arch real,
          is_realpath real = true ->
          ast_path xtudir arch real = ast_path_formula xtudir arch real).
Proof.
  split; [by split|]. split; [by split|].
  intros H. specialize (H "" "x86_64" "/home/u/a.c" eq_refl). discriminate H.
Qed.

(** C4 (amended): the path is a function of the output directory, the
    architecture and the realpath; it is the join of the directory with
    ast/<architecture>/<realpath without its first separator>.ast, which is
    the text of the specification when the directory and the architecture
    are not empty and do not end with a separator; two distinct realpaths
    never give the same path under one directory and architecture. *)
Theorem ast_path_deterministic_injective :
  (forall xtudir arch real,
      is_realpath real = true ->
      ast_path xtudir arch real
      = os_path_join xtudir
          ("ast/" ++ with_sep arch ++ Str.tail real ++ ".ast"))
  /\ (forall xtudir arch real,
        is_realpath real = true ->
        xtudir <> "" -> Str.endswith "/" xtudir = false ->
        arch <> "" -> Str.endswith "/" arch = false ->
        ast_path xtudir arch real = ast_path_formula xtudir arch real)
  /\ (forall xtudir arch real1 real2,
        is_realpath real1 = true -> is_realpath real2 = true ->
        real1 <> real2 ->
        ast_path xtudir arch real1 <> ast_path xtudir arch real2).
Proof.
  split; [|split].
  - intros xtudir arch real Hr.
    by rewrite ast_path_closed_form, os_path_join_relative.
  - intros xtudir arch real Hr Hx Hxe Ha Hae.
    rewrite ast_path_closed_form by done.
    rewrite !with_sep_plain by done. unfold ast_path_formula.
    by rewrite !append_assoc.
  - intros xtudir arch real1 real2 H1 H2 Hne Heq.
    rewrite !ast_path_closed_form in Heq by done.
    apply append_inv_head in Heq. apply append_inv_head in Heq.
    apply append_inv_head in Heq. apply append_inv_tail in Heq.
    apply realpath_tail in H1 as [E1 _]. apply realpath_tail in H2 as [E2 _].
    apply Hne. rewrite E1, E2. by rewrite Heq.
Qed.

Lemma ast_path_deterministic_injective_witness :
  ast_path ".xtu" "x86_64" "/home/u/a.c" = ".xtu/ast/x86_64/home/u/a.c.ast"
  /\ ast_path ".xtu" "x86_64" "/home/u/a.c"
     <> ast_path ".xtu" "x86_64" "/home/u/b.c".
Proof.
  destruct ast_path_deterministic_injective as (_ & Hf & Hi). split.
  - apply (Hf ".xtu" "x86_64" "/home/u/a.c"); [reflexivity|discriminate|reflexivity|discriminate|reflexivity].
  - apply (Hi ".xtu" "x86_64" "/home/u/a.c" "/home/u/b.c"); [reflexivity|reflexivity|discriminate].
Defined.

(** ** The reset of the aggregate outputs *)

Lemma clear_file_cleared w fs filename :
  clear_file w fs filename = (cleared w fs filename, None).
Proof.
  unfold clear_file, os_remove, cleared.
  destruct (fs !! filename) as [[d|]|]; [|done..].
  by destruct (unlink_denied w filename).
Qed.

Lemma cleared_lookup (w : world) (fs : gmap string node) (q p : string) :
  cleared w fs q !! p
  = if decide (p = q) then after_clear w p (fs !! p) else fs !! p.
Proof.
  unfold cleared, after_clear. case_decide as Hpq.
  - subst q. destruct (fs !! p) as [[d|]|] eqn:E; [|done..].
    destruct (unlink_denied w p); [done|]. apply lookup_delete_eq.
  - destruct (fs !! q) as [[d|]|]; [|done..].
    destruct (unlink_denied w q); [done|]. by apply lookup_delete_ne.
Qed.

Lemma after_clear_idemp (w : world) (p : string) (o : option node) :
  after_clear w p (after_clear w p o) = after_clear w p o.
Proof.
  unfold after_clear. destruct o as [[d|]|]; [|done..].
  by destruct (unlink_denied w p).
Qed.

Lemma cleared_fixed (w : world) (fs : gmap string node) (filename : string) :
  after_clear w filename (fs !! filename) = fs !! filename ->
  cleared w fs filename = fs.
Proof.
  unfold cleared, after_clear.
  destruct (fs !! filename) as [[d|]|]; [|done..].
  by destruct (unlink_denied w filename).
Qed.

Lemma reset_outputs_cleared w a fs :
  reset_outputs w a fs
  = (cleared w (cleared w (cleared w fs (xtuindir a ++ "/cfg.txt"))
                  (xtuindir a ++ "/definedFns.txt"))
       (xtuindir a ++ "/externalFns.txt"), None).
Proof.
  unfold reset_outputs. rewrite clear_file_cleared. simpl.
  rewrite clear_file_cleared. simpl. apply clear_file_cleared.
Qed.

(** What every name stands for after the reset. *)
Lemma reset_outputs_lookup w a fs p :
  (reset_outputs w a fs).1 !! p
  = if decide (p ∈ aggregate_outputs a) then after_clear w p (fs !! p)
    else fs !! p.
Proof.
  rewrite reset_outputs_cleared. simpl. rewrite !cleared_lookup.
  unfold aggregate_outputs.
  destruct (decide (p = xtuindir a ++ "/externalFns.txt")) as [H3|H3];
    destruct (decide (p = xtuindir a ++ "/definedFns.txt")) as [H2|H2];
    destruct (decide (p = xtuindir a ++ "/cfg.txt")) as [H1|H1];
    rewrite ?after_clear_idemp;
    case_decide as Hin; try reflexivity;
    rewrite !elem_of_cons, elem_of_nil in Hin; exfalso; intuition.
Qed.

Lemma reset_outputs_fixed w a fs :
  (forall p, p ∈ aggregate_outputs a ->
             after_clear w p (fs !! p) = fs !! p) ->
  reset_outputs w a fs = (fs, None).
Proof.
  intros H. rewrite reset_outputs_cleared.
  rewrite (cleared_fixed w fs (xtuindir a ++ "/cfg.txt")),
    (cleared_fixed w fs (xtuindir a ++ "/definedFns.txt")),
    (cleared_fixed w fs (xtuindir a ++ "/externalFns.txt")); [done|..];
    apply H; unfold aggregate_outputs; set_solver.
Qed.

(** The claim's "all three files absent" does not hold of every reset: a
    file that the system does not let go is still there after one reset
    and after two, and so is a directory that has the name of an aggregate
    output.  No error is raised in either case. *)
Lemma reset_outputs_undeletable_counterexample :
  let a := Mainargs "build.json" ".xtu" 4 false "." in
  let locked :=
    World (fun _ => None) (fun s => s) (fun _ => true) (fun _ => false)
      (fun _ => true) in
  let free :=
    World (fun _ => None) (fun s => s) (fun _ => true) (fun _ => false)
      (fun _ => false) in
  ".xtu/cfg.txt" ∈ aggregate_outputs a
  /\ reset_outputs locked a {[ ".xtu/cfg.txt" := File "old" ]}
     = ({[ ".xtu/cfg.txt" := File "old" ]}, None)
  /\ (reset_outputs locked a
        (reset_outputs locked a {[ ".xtu/cfg.txt" := File "old" ]}).1).1
     !! ".xtu/cfg.txt" = Some (File "old")
  /\ reset_outputs free a {[ ".xtu/cfg.txt" := Dir ]}
     = ({[ ".xtu/cfg.txt" := Dir ]}, None).
Proof.
  intros a locked free. split; [|by vm_compute].
  unfold aggregate_outputs. apply elem_of_cons. by left.
Qed.

(** C8 (amended): [clear_file] on a name that is absent returns without an
    error and changes nothing; the reset never raises; a second reset right
    after the first raises nothing and leaves the state of the first.  In
    that state an aggregate output that was a file is gone if the system
    lets it go and is still there, unchanged, if the system refuses; one
    that was a directory is still a directory; one that was absent is
    absent.  When all three are absent the reset changes nothing. *)
Theorem reset_outputs_idempotent (w : world) (a : mainargs)
  (fs : gmap string node) :
  (forall filename, fs !! filename = None ->
                    clear_file w fs filename = (fs, None))
  /\ (reset_outputs w a fs).2 = None
  /\ reset_outputs w a (reset_outputs w a fs).1
     = ((reset_outputs w a fs).1, None)
  /\ (forall p, p ∈ aggregate_outputs a ->
        (reset_outputs w a fs).1 !! p
        = match fs !! p with
          | Some (File d) =>
              if unlink_denied w p then Some (File d) else None
          | Some Dir => Some Dir
          | None => None
          end)
  /\ ((forall p, p ∈ aggregate_outputs a -> fs !! p = None) ->
      reset_outputs w a fs = (fs, None)).
Proof.
  split; [|split; [|split; [|split]]].
  - intros filename H. rewrite clear_file_cleared.
    f_equal. apply cleared_fixed. by rewrite H.
  - by rewrite reset_outputs_cleared.
  - apply reset_outputs_fixed. intros p Hp.
    rewrite reset_outputs_lookup, decide_True by done.
    apply after_clear_idemp.
  - intros p Hp. rewrite reset_outputs_lookup, decide_True by done.
    unfold after_clear. by destruct (fs !! p) as [[d|]|].
  - intros Habs. apply reset_outputs_fixed. intros p Hp.
    by rewrite (Habs p Hp).
Qed.

Lemma reset_outputs_idempotent_witness :
  let a := Mainargs "build.json" ".xtu" 4 false "." in
  let w :=
    World (fun _ => None) (fun s => s) (fun _ => true) (fun _ => false)
      (String.eqb ".xtu/definedFns.txt") in
  let fs : gmap string node :=
    {[ ".xtu/cfg.txt" := File "old"; ".xtu/definedFns.txt" := File "kept";
       ".xtu/ast" := Dir ]} in
  clear_file w fs ".xtu/externalFns.txt" = (fs, None)
  /\ (reset_outputs w a fs).1 !! ".xtu/cfg.txt" = None
  /\ (reset_outputs w a fs).1 !! ".xtu/definedFns.txt" = Some (File "kept")
  /\ reset_outputs w a {[ ".xtu/ast" := Dir ]} = ({[ ".xtu/ast" := Dir ]}, None).
Proof.
  intros a w fs.
  destruct (reset_outputs_idempotent w a fs) as (H1 & _ & _ & H4 & _).
  destruct (reset_outputs_idempotent w a {[ ".xtu/ast" := Dir ]})
    as (_ & _ & _ & _ & H5).
  assert (forall p, p ∈ aggregate_outputs a ->
                    p = ".xtu/cfg.txt" \/ p = ".xtu/definedFns.txt"
                    \/ p = ".xtu/externalFns.txt") as Hagg.
  { intros p Hp. unfold aggregate_outputs in Hp.
    rewrite !elem_of_cons, elem_of_nil in Hp. tauto. }
  split; [|split; [|split]].
  - apply H1. reflexivity.
  - rewrite H4; [reflexivity|]. unfold aggregate_outputs. set_solver.
  - rewrite H4; [reflexivity|]. unfold aggregate_outputs. set_solver.
  - apply H5. intros p Hp.
    destruct (Hagg p Hp) as [-> | [-> | ->]]; reflexivity.
Defined.

(** ** The loader *)

Lemma load_snoc (db : list step) (r : step) :
  load (db ++ [r]) = load_step (load db) r.
Proof. unfold load. by rewrite fold_left_app. Qed.

Lemma accepted_snoc (db : list step) (r : step) :
  accepted (db ++ [r])
  = (accepted db ++ if src_pattern_match (file r) then [r] else [])%list.
Proof.
  unfold accepted. rewrite List.filter_app. simpl.
  by destruct (src_pattern_match (file r)).
Qed.

Lemma load_step_rejected (st : relations) (r : step) :
  src_pattern_match (file r) = false -> load_step st r = st.
Proof. intros H. unfold load_step. by rewrite H. Qed.

Lemma load_step_src_2_cmd (st : relations) (r : step) :
  src_2_cmd (load_step st r)
  = if src_pattern_match (file r) then
      match src_2_cmd st !! file r with
      | None => <[file r := command r]> (src_2_cmd st)
      | Some _ => src_2_cmd st
      end
    else src_2_cmd st.
Proof.
  unfold load_step, record_command, record_source.
  destruct (src_pattern_match (file r)); [|reflexivity].
  destruct (src_2_cmd st !! file r); simpl;
    by destruct (cmd_2_src st !! command r).
Qed.

Lemma load_step_cmd_2_src (st : relations) (r : step) :
  cmd_2_src (load_step st r)
  = if src_pattern_match (file r) then
      match cmd_2_src st !! command r with
      | None => <[command r := [file r]]> (cmd_2_src st)
      | Some sources =>
          <[command r := (sources ++ [file r])%list]> (cmd_2_src st)
      end
    else cmd_2_src st.
Proof.
  unfold load_step, record_command, record_source.
  destruct (src_pattern_match (file r)); [|reflexivity].
  destruct (src_2_cmd st !! file r); simpl;
    by destruct (cmd_2_src st !! command r).
Qed.

Lemma load_step_src_order (st : relations) (r : step) :
  src_order (load_step st r)
  = if src_pattern_match (file r) then
      match src_2_cmd st !! file r with
      | None => (src_order st ++ [file r])%list
      | Some _ => src_order st
      end
    else src_order st.
Proof.
  unfold load_step, record_command, record_source.
  destruct (src_pattern_match (file r)); [|reflexivity].
  destruct (src_2_cmd st !! file r); simpl;
    by destruct (cmd_2_src st !! command r).
Qed.

Lemma load_step_cmd_order (st : relations) (r : step) :
  cmd_order (load_step st r)
  = if src_pattern_match (file r) then
      match cmd_2_src st !! command r with
      | None => (cmd_order st ++ [command r])%list
      | Some _ => cmd_order st
      end
    else cmd_order st.
Proof.
  unfold load_step, record_command, record_source.
  destruct (src_pattern_match (file r)); [|reflexivity].
  destruct (src_2_cmd st !! file r); simpl;
    by destruct (cmd_2_src st !! command r).
Qed.

Lemma dom_src_2_cmd (db : list step) :
  dom (src_2_cmd (load db)) = list_to_set (file <$> accepted db).
Proof.
  induction db as [|r db IH] using rev_ind; [apply dom_empty_L|].
  rewrite load_snoc, accepted_snoc, load_step_src_2_cmd, fmap_app.
  rewrite list_to_set_app_L, <- IH.
  destruct (src_pattern_match (file r)); simpl; [|set_solver].
  destruct (src_2_cmd (load db) !! file r) eqn:E.
  - assert (file r ∈ dom (src_2_cmd (load db))) by (apply elem_of_dom; eauto).
    set_solver.
  - rewrite dom_insert_L. set_solver.
Qed.

Lemma dom_cmd_2_src (db : list step) :
  dom (cmd_2_src (load db)) = list_to_set (command <$> accepted db).
Proof.
  induction db as [|r db IH] using rev_ind; [apply dom_empty_L|].
  rewrite load_snoc, accepted_snoc, load_step_cmd_2_src, fmap_app.
  rewrite list_to_set_app_L, <- IH.
  destruct (src_pattern_match (file r)); simpl; [|set_solver].
  destruct (cmd_2_src (load db) !! command r) eqn:E; rewrite dom_insert_L.
  - assert (command r ∈ dom (cmd_2_src (load db)))
      by (apply elem_of_dom; eauto).
    set_solver.
  - set_solver.
Qed.

Lemma total_pairs_insert_new (m : gmap string (list string)) c sources :
  m !! c = None ->
  total_pairs (<[c := sources]> m) = length sources + total_pairs m.
Proof.
  intros H. unfold total_pairs.
  rewrite map_fold_insert_L; [done| |done]. intros; lia.
Qed.

Lemma total_pairs_insert_old (m : gmap string (list string)) c old sources :
  m !! c = Some old ->
  total_pairs (<[c := sources]> m) + length old
  = length sources + total_pairs m.
Proof.
  intros H.
  rewrite <- (insert_delete_eq m c sources).
  rewrite <- (insert_id m c old H) at 2.
  rewrite <- (insert_delete_eq m c old).
  rewrite !total_pairs_insert_new by apply lookup_delete_eq. lia.
Qed.

Lemma total_pairs_load (db : list step) :
  total_pairs (cmd_2_src (load db)) = length (accepted db).
Proof.
  induction db as [|r db IH] using rev_ind; [reflexivity|].
  rewrite load_snoc, accepted_snoc, load_step_cmd_2_src, length_app, <- IH.
  destruct (src_pattern_match (file r)); simpl; [|lia].
  destruct (cmd_2_src (load db) !! command r) as [old|] eqn:E.
  - pose proof (total_pairs_insert_old _ _ _ (old ++ [file r]) E) as H.
    rewrite length_app in H. simpl in H. lia.
  - rewrite total_pairs_insert_new by done. simpl. lia.
Qed.

(** The sizes of the relations, counted over the records the pattern
    takes in. *)
Lemma load_cardinalities (db : list step) :
  size (src_2_cmd (load db)) = distinct (file <$> accepted db)
  /\ size (cmd_2_src (load db)) = distinct (command <$> accepted db)
  /\ total_pairs (cmd_2_src (load db)) = length (accepted db).
Proof.
  unfold distinct. rewrite <- dom_src_2_cmd, <- dom_cmd_2_src, !size_dom.
  split; [done|]. split; [done|]. apply total_pairs_load.
Qed.

(** Without line feeds the pattern takes in the records with a source
    suffix, and no other. *)
Lemma accepted_with_source_suffix (db : list step) :
  no_line_feed db = true -> accepted db = with_source_suffix db.
Proof.
  unfold accepted, with_source_suffix, no_line_feed.
  induction db as [|r db IH]; [reflexivity|].
  cbn [forallb List.filter]. intros [Hr Hdb]%andb_true_iff.
  apply negb_true_iff in Hr.
  by rewrite (src_pattern_match_suffix _ Hr), IH.
Qed.

(** C1: the counts of the claim, with N, M and K taken over the records
    whose file ends in a source suffix, hold for every database whose file
    names hold no line feed.  They fail with a line feed: the one record
    for a.c followed by a line feed has no source suffix (N = 0) and is in
    both maps; the one record for a, a line feed and b.c ends in .c
    (N = 1) and is in neither. *)
Theorem load_cardinalities_suffix :
  (forall db : list step,
      no_line_feed db = true ->
      size (src_2_cmd (load db)) = distinct (file <$> with_source_suffix db)
      /\ size (cmd_2_src (load db))
         = distinct (command <$> with_source_suffix db)
      /\ total_pairs (cmd_2_src (load db)) = length (with_source_suffix db))
  /\ (length (with_source_suffix [Step ("a.c" ++ String Str.LF "") "cc -c a.c"])
      = 0
      /\ size (src_2_cmd (load [Step ("a.c" ++ String Str.LF "") "cc -c a.c"]))
         = 1
      /\ size (cmd_2_src (load [Step ("a.c" ++ String Str.LF "") "cc -c a.c"]))
         = 1
      /\ total_pairs
           (cmd_2_src (load [Step ("a.c" ++ String Str.LF "") "cc -c a.c"]))
         = 1)
  /\ (length (with_source_suffix [Step ("a" ++ String Str.LF "b.c") "cc -c b.c"])
      = 1
      /\ size (src_2_cmd (load [Step ("a" ++ String Str.LF "b.c") "cc -c b.c"]))
         = 0
      /\ size (cmd_2_src (load [Step ("a" ++ String Str.LF "b.c") "cc -c b.c"]))
         = 0
      /\ total_pairs
           (cmd_2_src (load [Step ("a" ++ String Str.LF "b.c") "cc -c b.c"]))
         = 0).
Proof.
  split; [|split; by vm_compute].
  intros db Hdb. rewrite <- (accepted_with_source_suffix db Hdb).
  apply load_cardinalities.
Qed.

Lemma load_cardinalities_suffix_witness :
  no_line_feed (scenario "CC1" "CC2") = true
  /\ size (src_2_cmd (load (scenario "CC1" "CC2"))) = 2
  /\ size (cmd_2_src (load (scenario "CC1" "CC2"))) = 2
  /\ total_pairs (cmd_2_src (load (scenario "CC1" "CC2"))) = 4.
Proof.
  destruct (proj1 load_cardinalities_suffix (scenario "CC1" "CC2") eq_refl)
    as (H1 & H2 & H3).
  split; [reflexivity|]. split; [|split].
  - etrans; [exact H1|]. by vm_compute.
  - etrans; [exact H2|]. by vm_compute.
  - etrans; [exact H3|]. by vm_compute.
Defined.

Lemma find_snoc {A : Type} (p : A -> bool) (l : list A) (x : A) :
  List.find p (l ++ [x])
  = match List.find p l with
    | Some y => Some y
    | None => if p x then Some x else None
    end.
Proof.
  induction l as [|y l IH]; simpl; [reflexivity|].
  by destruct (p y).
Qed.

Lemma src_2_cmd_first (db : list step) (f : string) :
  src_pattern_match f = true ->
  src_2_cmd (load db) !! f
  = command <$> List.find (fun r => String.eqb (file r) f) db.
Proof.
  intros Hf. induction db as [|r db IH] using rev_ind; [reflexivity|].
  rewrite load_snoc, load_step_src_2_cmd, find_snoc.
  destruct (List.find (fun r0 => String.eqb (file r0) f) db) as [y|];
    simpl in IH |- *.
  - destruct (src_pattern_match (file r)); [|done].
    destruct (src_2_cmd (load db) !! file r) eqn:E; [done|].
    rewrite lookup_insert_ne; [done|]. intros Heq. congruence.
  - destruct (String.eqb_spec (file r) f) as [Heq|Hne].
    + rewrite Heq, Hf, IH. simpl. by rewrite lookup_insert_eq.
    + destruct (src_pattern_match (file r)); [|done].
      destruct (src_2_cmd (load db) !! file r); [done|].
      by rewrite lookup_insert_ne.
Qed.

Lemma occurrences_snoc (x y : string) (l : list string) :
  occurrences x (l ++ [y])
  = occurrences x l + if String.eqb x y then 1 else 0.
Proof.
  unfold occurrences. rewrite List.filter_app, length_app. simpl.
  by destruct (String.eqb x y).
Qed.

(** Every key of [src_2_cmd] is once in [src_order], and nothing else is. *)
Lemma src_order_keys (db : list step) (f : string) :
  occurrences f (src_order (load db))
  = match src_2_cmd (load db) !! f with Some _ => 1 | None => 0 end.
Proof.
  induction db as [|r db IH] using rev_ind; [reflexivity|].
  rewrite load_snoc, load_step_src_order, load_step_src_2_cmd.
  destruct (src_pattern_match (file r)); [|done].
  destruct (src_2_cmd (load db) !! file r) eqn:E; [done|].
  rewrite occurrences_snoc, IH.
  destruct (String.eqb_spec f (file r)) as [->|Hne].
  - by rewrite E, lookup_insert_eq.
  - rewrite lookup_insert_ne by done.
    destruct (src_2_cmd (load db) !! f); lia.
Qed.

(** Every key of [cmd_2_src] is once in [cmd_order], and nothing else is. *)
Lemma cmd_order_keys (db : list step) (c : string) :
  occurrences c (cmd_order (load db))
  = match cmd_2_src (load db) !! c with Some _ => 1 | None => 0 end.
Proof.
  induction db as [|r db IH] using rev_ind; [reflexivity|].
  rewrite load_snoc, load_step_cmd_order, load_step_cmd_2_src.
  destruct (src_pattern_match (file r)); [|done].
  destruct (cmd_2_src (load db) !! command r) eqn:E.
  - rewrite IH. destruct (decide (command r = c)) as [<-|Hne].
    + by rewrite E, lookup_insert_eq.
    + by rewrite lookup_insert_ne.
  - rewrite occurrences_snoc, IH.
    destruct (String.eqb_spec c (command r)) as [->|Hne].
    + by rewrite E, lookup_insert_eq.
    + rewrite lookup_insert_ne by done.
      destruct (cmd_2_src (load db) !! c); lia.
Qed.

(** A file that the source pattern takes in and that some record mentions
    has one entry in [src_2_cmd] (and stands once in [src_order]), bound to
    the command of the first record that mentions it; a record for a file
    that has its entry leaves [src_2_cmd] as it is. *)
Lemma src_2_cmd_first_wins :
  (forall (db : list step) (f : string),
      src_pattern_match f = true ->
      src_2_cmd (load db) !! f
      = command <$> List.find (fun r => String.eqb (file r) f) db)
  /\ (forall (db : list step) (r : step),
        r ∈ db -> src_pattern_match (file r) = true ->
        is_Some (src_2_cmd (load db) !! file r)
        /\ occurrences (file r) (src_order (load db)) = 1)
  /\ (forall (st : relations) (r : step),
        is_Some (src_2_cmd st !! file r) ->
        src_2_cmd (load_step st r) = src_2_cmd st).
Proof.
  split; [exact src_2_cmd_first|]. split.
  - intros db r Hin Hf.
    assert (is_Some (src_2_cmd (load db) !! file r)) as Hs.
    { apply elem_of_dom. rewrite dom_src_2_cmd.
      apply elem_of_list_to_set, list_elem_of_fmap. exists r. split; [done|].
      apply list_elem_of_In, List.filter_In. split; [by apply list_elem_of_In|done]. }
    split; [done|]. rewrite src_order_keys. by destruct Hs as [c ->].
  - intros st r [c Hc]. rewrite load_step_src_2_cmd, Hc.
    by destruct (src_pattern_match (file r)).
Qed.

(** C5: a file whose name ends in a source suffix and holds no line feed,
    and that some record mentions, has one entry in [src_2_cmd] (and stands
    once in [src_order]), bound to the command of the first record that
    mentions it; a record for a file that has its entry leaves [src_2_cmd]
    as it is.  With a line feed before the suffix the entry is missing: the
    file a, line feed, b.c ends in .c, is the file of the only record, and
    has no entry. *)
Theorem src_2_cmd_first_wins_suffix :
  (forall (db : list step) (f : string),
      has_source_suffix f = true ->
      Str.contains_char Str.LF f = false ->
      src_2_cmd (load db) !! f
      = command <$> List.find (fun r => String.eqb (file r) f) db)
  /\ (forall (db : list step) (r : step),
        r ∈ db ->
        has_source_suffix (file r) = true ->
        Str.contains_char Str.LF (file r) = false ->
        is_Some (src_2_cmd (load db) !! file r)
        /\ occurrences (file r) (src_order (load db)) = 1)
  /\ (forall (st : relations) (r : step),
        is_Some (src_2_cmd st !! file r) ->
        src_2_cmd (load_step st r) = src_2_cmd st)
  /\ (has_source_suffix ("a" ++ String Str.LF "b.c") = true
      /\ src_2_cmd (load [Step ("a" ++ String Str.LF "b.c") "cc -c b.c"])
         !! ("a" ++ String Str.LF "b.c") = None
      /\ src_order (load [Step ("a" ++ String Str.LF "b.c") "cc -c b.c"]) = []).
Proof.
  destruct src_2_cmd_first_wins as (H1 & H2 & H3).
  split; [|split; [|split; [exact H3|by vm_compute]]].
  - intros db f Hf Hlf. apply H1. by rewrite src_pattern_match_suffix.
  - intros db r Hin Hf Hlf. apply H2; [done|].
    by rewrite src_pattern_match_suffix.
Qed.

Lemma src_2_cmd_first_wins_suffix_witness :
  src_2_cmd (load [Step "a.cpp" "CC1"; Step "b.cpp" "CC1"; Step "a.cpp" "CC2"])
    !! "a.cpp" = Some "CC1"
  /\ occurrences "a.cpp"
       (src_order (load [Step "a.cpp" "CC1"; Step "b.cpp" "CC1";
                         Step "a.cpp" "CC2"])) = 1
  /\ src_2_cmd (load_step (load [Step "a.cpp" "CC1"]) (Step "a.cpp" "CC2"))
     = src_2_cmd (load [Step "a.cpp" "CC1"]).
Proof.
  destruct src_2_cmd_first_wins_suffix as (H1 & H2 & H3 & _).
  split; [|split].
  - apply (H1 [Step "a.cpp" "CC1"; Step "b.cpp" "CC1"; Step "a.cpp" "CC2"]
              "a.cpp"); reflexivity.
  - apply (H2 [Step "a.cpp" "CC1"; Step "b.cpp" "CC1"; Step "a.cpp" "CC2"]
              (Step "a.cpp" "CC1")); [|reflexivity..].
    apply list_elem_of_In. simpl. auto.
  - apply (H3 (load [Step "a.cpp" "CC1"]) (Step "a.cpp" "CC2")).
    exists "CC1". reflexivity.
Defined.

(** ** Records that the pattern rejects *)

Lemma load_app (db1 db2 : list step) :
  load (db1 ++ db2) = fold_left load_step db2 (load db1).
Proof. unfold load. by rewrite fold_left_app. Qed.

(** A rejected record can be taken out of the database. *)
Lemma rejected_record_skipped (db1 db2 : list step) (r : step) :
  src_pattern_match (file r) = false ->
  load (db1 ++ r :: db2) = load (db1 ++ db2).
Proof.
  intros H. rewrite !load_app. simpl. by rewrite load_step_rejected.
Qed.

(** A file that the pattern rejects is in none of the relations. *)
Lemma rejected_file_absent (db : list step) (f : string) :
  src_pattern_match f = false ->
  src_2_cmd (load db) !! f = None
  /\ (f ∉ src_order (load db))
  /\ (forall c sources,
        cmd_2_src (load db) !! c = Some sources -> f ∉ sources).
Proof.
  intros Hf. induction db as [|r db (IH1 & IH2 & IH3)] using rev_ind.
  - split; [done|]. split; [apply not_elem_of_nil|]. intros c l H. done.
  - rewrite load_snoc, load_step_src_2_cmd, load_step_src_order,
      load_step_cmd_2_src.
    destruct (src_pattern_match (file r)) eqn:Er; [|done].
    assert (file r <> f) as Hne by (intros E; rewrite E in Er; congruence).
    split; [|split].
    + destruct (src_2_cmd (load db) !! file r); [done|].
      by rewrite lookup_insert_ne.
    + destruct (src_2_cmd (load db) !! file r); [done|].
      rewrite elem_of_app, elem_of_cons, elem_of_nil. naive_solver.
    + intros c sources.
      destruct (cmd_2_src (load db) !! command r) as [old|] eqn:Ec;
        (destruct (decide (command r = c)) as [<-|Hc];
         [rewrite lookup_insert_eq|rewrite lookup_insert_ne by done;
                                   by apply IH3]).
      * intros [= <-]. rewrite elem_of_app, elem_of_cons, elem_of_nil.
        specialize (IH3 _ _ Ec). naive_solver.
      * intros [= <-]. rewrite elem_of_cons, elem_of_nil. naive_solver.
Qed.

(** On file names without a line feed this is the exclusion by suffix. *)
Lemma record_without_suffix_excluded (db1 db2 : list step) (r : step) :
  Str.contains_char Str.LF (file r) = false ->
  has_source_suffix (file r) = false ->
  load (db1 ++ r :: db2) = load (db1 ++ db2)
  /\ src_2_cmd (load (db1 ++ r :: db2)) !! file r = None
  /\ (file r ∉ src_order (load (db1 ++ r :: db2)))
  /\ (forall c sources,
        cmd_2_src (load (db1 ++ r :: db2)) !! c = Some sources ->
        file r ∉ sources).
Proof.
  intros Hlf Hs. rewrite <- src_pattern_match_suffix in Hs by done.
  split; [by apply rejected_record_skipped|].
  by apply rejected_file_absent.
Qed.

(** C9: the record whose file is "a.c" followed by a line feed does not
    end in .c, .cc, .cxx or .cpp, and the loader enters it in all four
    relations: the dollar of the pattern also holds before a final line
    feed. *)
Theorem trailing_line_feed_record_loaded :
  has_source_suffix ("a.c" ++ String Str.LF "") = false
  /\ load [Step ("a.c" ++ String Str.LF "") "cc -c a.c"]
     = {| src_2_cmd := {[ "a.c" ++ String Str.LF "" := "cc -c a.c" ]};
          src_order := ["a.c" ++ String Str.LF ""];
          cmd_2_src := {[ "cc -c a.c" := ["a.c" ++ String Str.LF ""] ]};
          cmd_order := ["cc -c a.c"] |}.
Proof. by vm_compute. Qed.

(** ** The end-to-end scenario *)

Lemma load_step_fields (st : relations) (r : step) :
  src_pattern_match (file r) = true ->
  load_step st r
  = {| src_2_cmd := match src_2_cmd st !! file r with
                    | None => <[file r := command r]> (src_2_cmd st)
                    | Some _ => src_2_cmd st
                    end;
       src_order := match src_2_cmd st !! file r with
                    | None => (src_order st ++ [file r])%list
                    | Some _ => src_order st
                    end;
       cmd_2_src := match cmd_2_src st !! command r with
                    | None => <[command r := [file r]]> (cmd_2_src st)
                    | Some sources =>
                        <[command r := (sources ++ [file r])%list]>
                          (cmd_2_src st)
                    end;
       cmd_order := match cmd_2_src st !! command r with
                    | None => (cmd_order st ++ [command r])%list
                    | Some _ => cmd_order st
                    end |}.
Proof.
  intros H. unfold load_step, record_command, record_source. rewrite H.
  destruct (src_2_cmd st !! file r); simpl;
    by destruct (cmd_2_src st !! command r).
Qed.

(** Runs the innermost pending [load_step] on an explicit state. *)
Ltac load_one :=
  match goal with
  | |- context [load_step (Relations ?a ?b ?c ?d) ?r] =>
      rewrite (load_step_fields (Relations a b c d) r) by reflexivity;
      cbn [src_2_cmd src_order cmd_2_src cmd_order file command app]
  end.

Lemma load_scenario (CC1 CC2 : string) :
  CC1 <> CC2 ->
  load (scenario CC1 CC2)
  = {| src_2_cmd := {[ "a.cpp" := CC1; "b.cpp" := CC1 ]};
       src_order := ["a.cpp"; "b.cpp"];
       cmd_2_src := {[ CC1 := ["a.cpp"; "a.cpp"; "b.cpp"];
                       CC2 := ["a.cpp"] ]};
       cmd_order := [CC1; CC2] |}.
Proof.
  intros Hne. unfold load, scenario, no_relations. cbn [fold_left].
  load_one. rewrite !lookup_empty.
  load_one. rewrite !lookup_insert_eq.
  load_one. rewrite lookup_insert_eq, lookup_insert_ne, lookup_empty by done.
  load_one.
  rewrite (lookup_insert_ne _ "b.cpp" "a.cpp") by done.
  rewrite lookup_insert_eq.
  rewrite !(lookup_insert_ne _ CC1 CC2), lookup_empty by done.
  rewrite !insert_insert_eq.
  f_equal; rewrite insert_insert_ne by done; by rewrite insert_empty.
Qed.

(** In whatever order the four records come, the group of the first
    command cannot be [a.cpp; b.cpp]: the groups hold four sources. *)
Lemma scenario_any_order (CC1 CC2 : string) (db : list step) :
  CC1 <> CC2 -> db ≡ₚ scenario CC1 CC2 ->
  cmd_2_src (load db)
  <> {[ CC1 := ["a.cpp"; "b.cpp"]; CC2 := ["a.cpp"] ]}.
Proof.
  intros Hne Hperm Heq.
  pose proof (total_pairs_load db) as Hn. rewrite Heq in Hn.
  rewrite total_pairs_insert_new in Hn by by rewrite lookup_singleton_ne.
  rewrite <- insert_empty, total_pairs_insert_new in Hn by apply lookup_empty.
  assert (length (accepted db) = 4) as E.
  { transitivity (length (accepted (scenario CC1 CC2))); [|reflexivity].
    apply Permutation_length. unfold accepted.
    assert (forall l, List.filter (fun r => src_pattern_match (file r)) l
                      = filter (fun r => src_pattern_match (file r) = true) l) as Hf.
    { induction l as [|x l IH]; [done|]. simpl. rewrite filter_cons, IH.
      destruct (src_pattern_match (file x)); by case_decide. }
    rewrite !Hf. by apply filter_Permutation. }
  rewrite E in Hn. discriminate Hn.
Qed.

(** The groups the claim gives are not the ones the loader builds. *)
Lemma scenario_groups_counterexample :
  cmd_2_src (load (scenario "CC1" "CC2")) !! "CC1"
  = Some ["a.cpp"; "a.cpp"; "b.cpp"]
  /\ cmd_2_src (load (scenario "CC1" "CC2"))
     <> {[ "CC1" := ["a.cpp"; "b.cpp"]; "CC2" := ["a.cpp"] ]}.
Proof.
  split; [by vm_compute|].
  intros H. apply (f_equal (fun m => m !! "CC1")) in H.
  vm_compute in H. discriminate H.
Qed.

Lemma emit_ast_answered (w : world) (a : mainargs) (cmd source : string) :
  (forall c, is_Some (check_output w c)) ->
  (forall d, makedirs w d || isdir w d = true) ->
  exists arch_cmd dir,
    emit_ast w a cmd source
    = ([CheckOutput arch_cmd; Makedirs dir;
        Call (ast_command a (get_command_arguments cmd) source
                (ast_target w a cmd source))], None).
Proof.
  intros Hout Hdir. unfold emit_ast, ast_target.
  destruct (Hout (arch_command a (get_command_arguments cmd) source))
    as [out ->].
  rewrite Hdir. eauto.
Qed.

(** C2 (amended): on the four records of the scenario the loader gives
    src_2_cmd = {a.cpp: CC1, b.cpp: CC1} and
    cmd_2_src = {CC1: [a.cpp, a.cpp, b.cpp], CC2: [a.cpp]}; Phase 1 has two
    tasks, one per source, each built from CC1, and when the tools answer
    it emits two ASTs; Phase 2 runs the function mapper twice, once per
    command. *)
Theorem scenario_end_to_end (CC1 CC2 : string) (w : world) (a : mainargs) :
  CC1 <> CC2 ->
  (forall c, is_Some (check_output w c)) ->
  (forall d, makedirs w d || isdir w d = true) ->
  let st := load (scenario CC1 CC2) in
  src_2_cmd st = {[ "a.cpp" := CC1; "b.cpp" := CC1 ]}
  /\ cmd_2_src st
     = {[ CC1 := ["a.cpp"; "a.cpp"; "b.cpp"]; CC2 := ["a.cpp"] ]}
  /\ src_order st = ["a.cpp"; "b.cpp"]
  /\ cmd_order st = [CC1; CC2]
  /\ phase1 w a st = [emit_ast w a CC1 "a.cpp"; emit_ast w a CC1 "b.cpp"]
  /\ calls (phase1 w a st)
     = [ast_command a (get_command_arguments CC1) "a.cpp"
          (ast_target w a CC1 "a.cpp");
        ast_command a (get_command_arguments CC1) "b.cpp"
          (ast_target w a CC1 "b.cpp")]
  /\ calls (phase2 a st)
     = [funcmap_command a ["a.cpp"; "a.cpp"; "b.cpp"]
          (get_command_arguments CC1);
        funcmap_command a ["a.cpp"] (get_command_arguments CC2)].
Proof.
  intros Hne Hout Hdir st. subst st. rewrite (load_scenario CC1 CC2 Hne).
  cbn [src_2_cmd src_order cmd_2_src cmd_order].
  do 4 (split; [reflexivity|]).
  assert (phase1 w a
            {| src_2_cmd := {[ "a.cpp" := CC1; "b.cpp" := CC1 ]};
               src_order := ["a.cpp"; "b.cpp"];
               cmd_2_src := {[ CC1 := ["a.cpp"; "a.cpp"; "b.cpp"];
                               CC2 := ["a.cpp"] ]};
               cmd_order := [CC1; CC2] |}
          = [emit_ast w a CC1 "a.cpp"; emit_ast w a CC1 "b.cpp"]) as ->
    by reflexivity.
  split; [reflexivity|]. split.
  - destruct (emit_ast_answered w a CC1 "a.cpp" Hout Hdir) as (c1 & d1 & ->).
    destruct (emit_ast_answered w a CC1 "b.cpp" Hout Hdir) as (c2 & d2 & ->).
    reflexivity.
  - unfold phase2, map_functions. cbn [cmd_order cmd_2_src map].
    rewrite lookup_insert_eq, lookup_insert_ne, lookup_singleton_eq by done.
    reflexivity.
Qed.

Lemma scenario_end_to_end_witness :
  let w := {| check_output := fun _ => Some "@x86_64";
              realpath := fun s => "/src/" ++ s;
              makedirs := fun _ => true;
              isdir := fun _ => false;
              unlink_denied := fun _ => false |} in
  let a := Mainargs "build.json" ".xtu" 4 false "/opt/clang/bin" in
  src_2_cmd (load (scenario "gcc -DONE -c" "gcc -DTWO -c")) !! "a.cpp"
  = Some "gcc -DONE -c"
  /\ calls (phase1 w a (load (scenario "gcc -DONE -c" "gcc -DTWO -c")))
     = ["/opt/clang/bin/clang -emit-ast -DONE -c -w a.cpp -o .xtu/ast/x86_64/src/a.cpp.ast";
        "/opt/clang/bin/clang -emit-ast -DONE -c -w b.cpp -o .xtu/ast/x86_64/src/b.cpp.ast"]
  /\ length (calls (phase2 a (load (scenario "gcc -DONE -c" "gcc -DTWO -c"))))
     = 2.
Proof.
  intros w a.
  destruct (scenario_end_to_end "gcc -DONE -c" "gcc -DTWO -c" w a)
    as (H1 & _ & _ & _ & _ & H6 & H7).
  - discriminate.
  - intros c. by exists "@x86_64".
  - reflexivity.
  - split; [by rewrite H1|]. split; [by rewrite H6|]. by rewrite H7.
Defined.

(** ** The barrier between the phases *)

Lemma barrier_snoc (st : relations) (tr : list event) (e : event) :
  barrier st tr ->
  (forall c, e = Begin Phase2 c ->
             forall x, x ∈ src_order st -> End Phase1 x ∈ tr) ->
  barrier st (tr ++ [e]).
Proof.
  intros Hb He pre c post Heq x Hx.
  destruct post as [|e' post _] using rev_ind.
  - apply (app_inj_tail tr pre e (Begin Phase2 c)) in Heq as [-> ->].
    by apply (He c).
  - rewrite app_comm_cons, app_assoc in Heq.
    apply app_inj_tail in Heq as [-> _]. by apply (Hb pre c post).
Qed.

Lemma barrier_no_begin (st : relations) (tr : list event) :
  (forall c, Begin Phase2 c ∉ tr) -> barrier st tr.
Proof.
  intros Hno pre c post -> x Hx. destruct (Hno c).
  apply elem_of_app. right. apply elem_of_cons. by left.
Qed.

Lemma pools_inv_init (st : relations) : pools_inv st (pools_init st).
Proof.
  split; simpl.
  - intros x Hx. by left.
  - split; [done|]. intros c Hc. by apply elem_of_nil in Hc.
  - apply barrier_no_begin. intros c Hc. by apply elem_of_nil in Hc.
Qed.

(** Appending an event that is no Phase 2 begin keeps the trace free of
    them. *)
Lemma no_begin_snoc (tr : list event) (e : event) :
  (forall c, Begin Phase2 c ∉ tr) -> (forall c, e <> Begin Phase2 c) ->
  forall c, Begin Phase2 c ∉ (tr ++ [e])%list.
Proof.
  intros Hno He c Hc. apply elem_of_app in Hc as [Hc|Hc]; [by destruct (Hno c)|].
  apply elem_of_cons in Hc as [Hc|Hc]; [by destruct (He c)|].
  by apply elem_of_nil in Hc.
Qed.

Ltac accounted Hacc :=
  let x := fresh "x" in
  let Hx := fresh "Hx" in
  intros x Hx; specialize (Hacc x Hx); simpl in Hacc |- *; set_solver.

Lemma pools_inv_step (threads : nat) (st : relations) (s s' : sys) :
  pools_inv st s -> pool_step threads st s s' -> pools_inv st s'.
Proof.
  intros [Hacc Hph Hbar] Hstep.
  inversion Hstep; subst; simpl in *.
  - (* submit1 *) split; simpl; [accounted Hacc|done|done].
  - (* close1 *) split; simpl; [accounted Hacc|done|done].
  - (* join1 *) split; simpl; [accounted Hacc|done|done].
  - (* submit2 *) split; simpl; [accounted Hacc|done|done].
  - (* close2 *) split; simpl; [accounted Hacc|done|done].
  - (* join2 *) split; simpl; [accounted Hacc|done|done].
  - (* start1 *)
    split; simpl; [accounted Hacc| |].
    + destruct here; try done;
        (destruct Hph as [-> Hno]; split; [done|];
         by apply no_begin_snoc).
    + apply barrier_snoc; [done|]. intros c Hc. discriminate Hc.
  - (* end1 *)
    split; simpl; [accounted Hacc| |].
    + destruct here;
        first [ by (injection Hph as _ Hr; destruct r1; discriminate Hr)
              | destruct Hph as [-> Hno]; split; [done|];
                by apply no_begin_snoc ].
    + apply barrier_snoc; [done|]. intros c Hc. discriminate Hc.
  - (* start2 *)
    assert (p1 = Pool [] []) as ->
      by (destruct here; try done; by destruct Hph as [Hph _]).
    split; simpl; [accounted Hacc| |].
    + destruct here; try done; by destruct Hph as [Hph _].
    + apply barrier_snoc; [done|]. intros c' _ x Hx.
      specialize (Hacc x Hx).
      destruct here; first [ by destruct Hph | simpl in Hacc; set_solver ].
  - (* end2 *)
    assert (p1 = Pool [] []) as ->
      by (destruct here; try done; destruct Hph as [Hph _];
          destruct r1; discriminate Hph).
    split; simpl; [accounted Hacc| |].
    + destruct here; try done; destruct Hph as [Hph _];
        destruct r1; discriminate Hph.
    + apply barrier_snoc; [done|]. intros c' Hc. discriminate Hc.
Qed.

Lemma pools_inv_reachable (threads : nat) (st : relations) (s : sys) :
  rtc (pool_step threads st) (pools_init st) s -> pools_inv st s.
Proof.
  revert s. apply rtc_ind_r.
  - apply pools_inv_init.
  - intros s s' _ Hstep IH. by apply (pools_inv_step threads st s).
Qed.

(** A run of the pools on one source and one command, up to the begin of
    the Phase 2 task. *)
Lemma pools_run_example :
  let st := load [Step "a.cpp" "CC1"] in
  rtc (pool_step 1 st) (pools_init st)
    (Sys Join2 (Pool [] []) (Pool [] ["CC1"])
       [Begin Phase1 "a.cpp"; End Phase1 "a.cpp"; Begin Phase2 "CC1"]).
Proof.
  intros st.
  eapply rtc_l; [apply (submit1 1 st "a.cpp" [] (Pool [] []))|]. simpl.
  eapply rtc_l; [apply close1|].
  eapply rtc_l; [apply (start1 1 st Join1 "a.cpp" [] []); simpl; lia|]. simpl.
  eapply rtc_l; [apply (end1 1 st Join1 "a.cpp" [] [] [])|]. simpl.
  eapply rtc_l; [apply join1|].
  change (cmd_order st) with ["CC1"].
  eapply rtc_l; [apply (submit2 1 st "CC1" [] _ (Pool [] []))|]. simpl.
  eapply rtc_l; [apply close2|].
  eapply rtc_l; [apply (start2 1 st Join2 "CC1" [] []); simpl; lia|]. simpl.
  apply rtc_refl.
Qed.

(** C6: in every state the two pools can reach, a Phase 2 task has begun
    only after the Phase 1 task of every source of [src_order] (all of them
    are submitted before the join) has ended. *)
Theorem phase_barrier (threads : nat) (db : list step) (s : sys) :
  rtc (pool_step threads (load db)) (pools_init (load db)) s ->
  forall pre c post,
    trace s = (pre ++ Begin Phase2 c :: post)%list ->
    forall x, x ∈ src_order (load db) -> End Phase1 x ∈ pre.
Proof.
  intros Hreach. apply (inv_barrier (load db) s).
  by apply (pools_inv_reachable threads).
Qed.

Lemma phase_barrier_witness :
  End Phase1 "a.cpp" ∈ [Begin Phase1 "a.cpp"; End Phase1 "a.cpp"].
Proof.
  apply (phase_barrier 1 [Step "a.cpp" "CC1"] _ pools_run_example
           [Begin Phase1 "a.cpp"; End Phase1 "a.cpp"] "CC1" []).
  - reflexivity.
  - change (src_order (load [Step "a.cpp" "CC1"])) with ["a.cpp"].
    apply elem_of_cons. by left.
Defined.

(** ** Fatal conditions *)

Lemma comprehension_lacks (rs : list json) (lengths : list json) :
  existsb lacks_metric rs = true ->
  comprehension bug_path_length rs = inr lengths ->
  existsb is_none lengths = true.
Proof.
  revert lengths. induction rs as [|r rs IH]; intros lengths H Hc; [done|].
  simpl in H, Hc.
  destruct (bug_path_length r) as [e|v] eqn:Er; [done|].
  destruct (comprehension bug_path_length rs) as [e|vs] eqn:Ers; [done|].
  injection Hc as <-. simpl.
  apply orb_true_iff in H as [H|H].
  - unfold lacks_metric in H. unfold bug_path_length in Er.
    destruct r as [| | | | |members]; try done.
    destruct (member "bugPathLength" members) as [[]|]; try done.
    by injection Er as <-.
  - rewrite (IH vs H eq_refl). apply orb_true_r.
Qed.

Lemma results_loop_lacks call_command json_loads calculate_metrics
  make_histogram (args : stats_args) (Histogram : bool)
  (projects : list string) (project : string) (records : list json) :
  project ∈ projects ->
  json_loads
    (call_command
       (cc_command_builder args ["cmd"; "results"] ["--name"; project]))
  = Some (JList records) ->
  existsb lacks_metric records = true ->
  aborted (results_loop call_command json_loads calculate_metrics
             make_histogram args Histogram projects).
Proof.
  intros Hin Hres Hlack. unfold aborted.
  induction projects as [|q projects IH]; [by apply elem_of_nil in Hin|].
  apply elem_of_cons in Hin as [<-|Hin].
  - cbn [results_loop]. rewrite Hres. unfold bug_path_lengths, iterate.
    destruct (comprehension bug_path_length records) as [e|lengths] eqn:E;
      [done|].
    by rewrite (comprehension_lacks records lengths Hlack E).
  - cbn [results_loop].
    destruct (json_loads
                (call_command
                   (cc_command_builder args ["cmd"; "results"] ["--name"; q])));
      [|by apply IH].
    destruct (bug_path_lengths _); [done|].
    destruct (existsb is_none _); [done|].
    destruct (calculate_metrics _); [done|].
    destruct Histogram; [|by apply IH].
    destruct (make_histogram _); [done|by apply IH].
Qed.

(** Unparsable JSON on a results query does not end the process: the run is
    skipped and the tool runs to its last line. *)
Lemma unparsable_results_counterexample :
  let args := StatsArgs "localhost" "8001" All false in
  loads_example
    (broken_service (cc_command_builder args ["cmd"; "results"] ["--name"; "p"]))
  = None
  /\ bug_stats broken_service loads_example (fun _ => None) (fun _ => None)
       (Some 2%Z) None args = Finished.
Proof. by vm_compute. Qed.

(** C7 (amended): the process ends at once when the build log is missing
    or is no JSON; in the reporting tool, when the runs query meets a
    refused connection or returns no JSON, and when a results query that is
    parsed holds a record without the path-length metric.  (A results query
    that returns no JSON only skips its run.) *)
Theorem fatal_conditions :
  (forall json_load w a fs,
      fs !! buildlog_name a = None ->
      xtu_build json_load w a fs = inl IOError)
  /\ (forall json_load w a fs data,
        fs !! buildlog_name a = Some (File data) ->
        json_load data = None ->
        xtu_build json_load w a fs = inl ValueError)
  /\ (forall call_command json_loads calculate_metrics make_histogram
             probe histogram_probe args,
        mentions "Connection refused"
          (call_command (cc_command_builder args ["cmd"; "runs"] [])) = true ->
        bug_stats call_command json_loads calculate_metrics make_histogram
          probe histogram_probe args = Exit 1)
  /\ (forall call_command json_loads calculate_metrics make_histogram
             probe histogram_probe args,
        json_loads (call_command (cc_command_builder args ["cmd"; "runs"] []))
        = None ->
        bug_stats call_command json_loads calculate_metrics make_histogram
          probe histogram_probe args = Exit 1)
  /\ (forall call_command json_loads calculate_metrics make_histogram
             probe histogram_probe args parsed runs projects project records,
        json_loads (call_command (cc_command_builder args ["cmd"; "runs"] []))
        = Some parsed ->
        existing_runs parsed = inr runs ->
        project_names args runs = inr projects ->
        project ∈ projects ->
        json_loads
          (call_command
             (cc_command_builder args ["cmd"; "results"] ["--name"; project]))
        = Some (JList records) ->
        existsb lacks_metric records = true ->
        aborted
          (bug_stats call_command json_loads calculate_metrics make_histogram
             probe histogram_probe args)).
Proof.
  split; [|split; [|split; [|split]]].
  - intros json_load w a fs H. unfold xtu_build, open_read. by rewrite H.
  - intros json_load w a fs data H Hj. unfold xtu_build, open_read.
    by rewrite H, Hj.
  - intros call_command json_loads calc hist probe hprobe args H.
    unfold bug_stats. destruct probe as [r|]; [|done].
    destruct (negb (r =? 2)%Z); [done|]. by rewrite H.
  - intros call_command json_loads calc hist probe hprobe args H.
    unfold bug_stats. destruct probe as [r|]; [|done].
    destruct (negb (r =? 2)%Z); [done|]. rewrite H.
    by destruct (_ || _).
  - intros call_command json_loads calc hist probe hprobe args parsed runs
      projects project records Hruns Hex Hpn Hin Hres Hlack.
    unfold bug_stats. destruct probe as [r|]; [|done].
    destruct (negb (r =? 2)%Z); [done|].
    destruct (_ || _); [done|].
    rewrite Hruns, Hex, Hpn. by apply (results_loop_lacks _ _ _ _ _ _ _ project records).
Qed.

Lemma fatal_conditions_witness :
  let w := World (fun _ => None) (fun s => s) (fun _ => true) (fun _ => false)
             (fun _ => false) in
  let a := Mainargs "build.json" ".xtu" 4 false "." in
  let args := StatsArgs "localhost" "8001" All false in
  xtu_build (fun _ => None) w a ∅ = inl IOError
  /\ xtu_build (fun _ => None) w a {[ "build.json" := File "[" ]}
     = inl ValueError
  /\ bug_stats (fun _ => "Connection refused") loads_example
       (fun _ => None) (fun _ => None) (Some 2%Z) None args = Exit 1
  /\ bug_stats (fun _ => "<html>") loads_example
       (fun _ => None) (fun _ => None) (Some 2%Z) None args = Exit 1
  /\ aborted
       (bug_stats old_service loads_example (fun _ => None) (fun _ => None)
          (Some 2%Z) None args).
Proof.
  intros w a args.
  destruct fatal_conditions as (H1 & H2 & H3 & H4 & H5).
  split; [|split; [|split; [|split]]].
  - apply H1. reflexivity.
  - apply (H2 _ w a _ "["); reflexivity.
  - apply H3. reflexivity.
  - apply H4. reflexivity.
  - apply (H5 old_service loads_example _ _ _ _ args
              (JList [JDict [("p", JNum 1)]]) ["p"] ["p"] "p" [JDict []]);
      try reflexivity.
    apply elem_of_cons. by left.
Defined.

(** ** More on the ends of a text *)

Lemma endswith_iff (p s : string) :
  Str.endswith p s = true <-> exists a, s = a ++ p.
Proof.
  induction s as [|c s IH]; simpl.
  - rewrite orb_false_r, String.eqb_eq. split.
    + intros ->. by exists "".
    + intros [[|d a] H]; [done|]. rewrite append_cons in H. discriminate H.
  - rewrite orb_true_iff, String.eqb_eq, IH. split.
    + intros [->|[a ->]]; [by exists ""|]. exists (String c a).
      by rewrite append_cons.
    + intros [[|d a] H]; [by left|]. rewrite append_cons in H.
      injection H as -> ->. right. eauto.
Qed.

Lemma append_same_length_tail (a b p q : string) :
  a ++ p = b ++ q -> String.length p = String.length q -> p = q.
Proof.
  revert b. induction a as [|c a IH]; intros [|d b] H Hlen.
  - done.
  - rewrite append_nil, append_cons in H. subst p. simpl in Hlen.
    rewrite append_length in Hlen. lia.
  - rewrite append_nil, append_cons in H. subst q. simpl in Hlen.
    rewrite append_length in Hlen. lia.
  - rewrite !append_cons in H. injection H as _ H. by apply (IH b).
Qed.

(** * Further properties *)

(** ** The loader: order, groups, agreement of the relations *)

Lemma nub_in (x : string) (l : list string) : x ∈ nub l <-> x ∈ l.
Proof.
  induction l as [|y l IH]; [done|]. simpl.
  rewrite !elem_of_cons, list_elem_of_In, List.filter_In, <- list_elem_of_In, IH.
  destruct (String.eqb_spec y x) as [->|Hne]; simpl; [tauto|].
  split; [tauto|]. intros [->|H]; [by left|right; tauto].
Qed.

Lemma nub_snoc (l : list string) (x : string) :
  nub (l ++ [x])
  = if existsb (String.eqb x) l then nub l else (nub l ++ [x])%list.
Proof.
  induction l as [|y l IH]; [reflexivity|].
  simpl. rewrite IH. destruct (String.eqb_spec x y) as [->|Hne]; simpl.
  - destruct (existsb (String.eqb y) l); [reflexivity|].
    rewrite List.filter_app. simpl. rewrite String.eqb_refl. simpl.
    by rewrite app_nil_r.
  - destruct (existsb (String.eqb x) l); [reflexivity|].
    rewrite List.filter_app. simpl.
    destruct (String.eqb_spec y x) as [->|_]; [done|]. reflexivity.
Qed.

Lemma existsb_eqb_elem (x : string) (l : list string) :
  existsb (String.eqb x) l = true <-> x ∈ l.
Proof.
  rewrite existsb_exists. split.
  - intros (y & Hy & ->%String.eqb_eq). by apply list_elem_of_In.
  - intros H. exists x. split; [by apply list_elem_of_In|apply String.eqb_refl].
Qed.

Lemma src_2_cmd_key (db : list step) (f : string) :
  is_Some (src_2_cmd (load db) !! f) <-> f ∈ file <$> accepted db.
Proof.
  rewrite <- elem_of_dom, dom_src_2_cmd. apply elem_of_list_to_set.
Qed.

Lemma cmd_2_src_key (db : list step) (c : string) :
  is_Some (cmd_2_src (load db) !! c) <-> c ∈ command <$> accepted db.
Proof.
  rewrite <- elem_of_dom, dom_cmd_2_src. apply elem_of_list_to_set.
Qed.

Lemma nub_NoDup (l : list string) : NoDup (nub l).
Proof.
  induction l as [|x l IH]; [constructor|]. simpl. constructor.
  - rewrite list_elem_of_In, List.filter_In. intros [_ H].
    by rewrite String.eqb_refl in H.
  - clear -IH. induction IH as [|y k Hy Hk IHk]; [constructor|]. simpl.
    destruct (negb (String.eqb x y)); [|done]. constructor; [|done].
    rewrite list_elem_of_In, List.filter_In, <- list_elem_of_In. tauto.
Qed.

Lemma src_order_nub (db : list step) :
  src_order (load db) = nub (file <$> accepted db).
Proof.
  induction db as [|r db IH] using rev_ind; [reflexivity|].
  rewrite load_snoc, accepted_snoc, load_step_src_order, fmap_app.
  destruct (src_pattern_match (file r)); simpl; [|by rewrite app_nil_r].
  rewrite nub_snoc, <- IH.
  destruct (src_2_cmd (load db) !! file r) eqn:E.
  - assert (file r ∈ file <$> accepted db) as H
      by (apply src_2_cmd_key; eauto).
    apply existsb_eqb_elem in H. by rewrite H.
  - destruct (existsb (String.eqb (file r)) (file <$> accepted db)) eqn:Ex;
      [|done].
    apply existsb_eqb_elem, src_2_cmd_key in Ex as [c Hc]. congruence.
Qed.

Lemma cmd_order_nub (db : list step) :
  cmd_order (load db) = nub (command <$> accepted db).
Proof.
  induction db as [|r db IH] using rev_ind; [reflexivity|].
  rewrite load_snoc, accepted_snoc, load_step_cmd_order, fmap_app.
  destruct (src_pattern_match (file r)); simpl; [|by rewrite app_nil_r].
  rewrite nub_snoc, <- IH.
  destruct (cmd_2_src (load db) !! command r) eqn:E.
  - assert (command r ∈ command <$> accepted db) as H
      by (apply cmd_2_src_key; eauto).
    apply existsb_eqb_elem in H. by rewrite H.
  - destruct (existsb (String.eqb (command r)) (command <$> accepted db))
      eqn:Ex; [|done].
    apply existsb_eqb_elem, cmd_2_src_key in Ex as [l Hl]. congruence.
Qed.

(** X1: [src_order] lists the files of the accepted records in the order
    of their first occurrence, each once, and [cmd_order] does the same for
    the commands. *)
Theorem orders_first_occurrences (db : list step) :
  src_order (load db) = nub (file <$> accepted db)
  /\ cmd_order (load db) = nub (command <$> accepted db)
  /\ NoDup (src_order (load db)) /\ NoDup (cmd_order (load db)).
Proof.
  rewrite src_order_nub, cmd_order_nub. repeat split; apply nub_NoDup.
Qed.

Lemma files_of_snoc (c : string) (db : list step) (r : step) :
  files_of c (db ++ [r])
  = (files_of c db
     ++ if src_pattern_match (file r) && String.eqb (command r) c
        then [file r] else [])%list.
Proof.
  unfold files_of. rewrite accepted_snoc, List.filter_app, List.map_app.
  destruct (src_pattern_match (file r)); simpl; [|reflexivity].
  by destruct (String.eqb (command r) c).
Qed.

Lemma cmd_2_src_files_of (db : list step) (c : string) :
  cmd_2_src (load db) !! c
  = match files_of c db with
    | [] => None
    | sources => Some sources
    end.
Proof.
  induction db as [|r db IH] using rev_ind; [reflexivity|].
  rewrite load_snoc, load_step_cmd_2_src, files_of_snoc.
  destruct (src_pattern_match (file r)); simpl;
    [|by rewrite app_nil_r].
  destruct (String.eqb_spec (command r) c) as [->|Hne].
  - rewrite IH. destruct (files_of c db) as [|f fs]; simpl.
    + by rewrite lookup_insert_eq.
    + by rewrite lookup_insert_eq.
  - rewrite app_nil_r, <- IH.
    destruct (cmd_2_src (load db) !! command r);
      by rewrite lookup_insert_ne.
Qed.

(** X2: the group of a command holds the files of the accepted records
    with exactly that command, in the order of the records and as often as
    they come; a command has a group when it has a record, and no group is
    empty. *)
Theorem cmd_2_src_groups (db : list step) (c : string) :
  (files_of c db <> [] ->
   cmd_2_src (load db) !! c = Some (files_of c db))
  /\ (files_of c db = [] -> cmd_2_src (load db) !! c = None)
  /\ (forall sources, cmd_2_src (load db) !! c = Some sources ->
                      sources = files_of c db /\ sources <> []).
Proof.
  rewrite cmd_2_src_files_of. destruct (files_of c db) as [|f fs].
  - split; [done|]. split; [done|]. intros sources H. discriminate H.
  - split; [done|]. split; [intros H; discriminate H|].
    intros sources [= <-]. done.
Qed.

Lemma cmd_2_src_groups_witness :
  cmd_2_src
    (load [Step "a.c" "cc"; Step "b.h" "cc"; Step "b.c" "cc"; Step "a.c" "cc"])
    !! "cc" = Some ["a.c"; "b.c"; "a.c"].
Proof.
  destruct (cmd_2_src_groups
              [Step "a.c" "cc"; Step "b.h" "cc"; Step "b.c" "cc";
               Step "a.c" "cc"] "cc") as (H & _ & _).
  apply H. by vm_compute.
Defined.

Lemma accepted_elem (db : list step) (r : step) :
  r ∈ accepted db <-> r ∈ db /\ src_pattern_match (file r) = true.
Proof.
  unfold accepted. by rewrite !list_elem_of_In, List.filter_In.
Qed.

Lemma files_of_elem (c f : string) (db : list step) :
  f ∈ files_of c db
  <-> exists r, r ∈ accepted db /\ command r = c /\ file r = f.
Proof.
  unfold files_of. rewrite list_elem_of_In, List.in_map_iff. split.
  - intros (r & <- & [Hr Hc%String.eqb_eq]%List.filter_In).
    exists r. by rewrite list_elem_of_In.
  - intros (r & Hr & Hc & <-). exists r. split; [done|].
    apply List.filter_In. rewrite <- list_elem_of_In.
    split; [done|by apply String.eqb_eq].
Qed.

Lemma src_order_has_entry (db : list step) (f : string) :
  f ∈ src_order (load db) -> is_Some (src_2_cmd (load db) !! f).
Proof. rewrite src_order_nub, nub_in. apply src_2_cmd_key. Qed.


(** X3: the two maps and the two lists agree.  The command that
    [src_2_cmd] gives a file has a group in [cmd_2_src] with that file in
    it, and is in [cmd_order]; every file of every group has an entry in
    [src_2_cmd] and is in [src_order].  So no task of either phase looks up
    a missing key. *)
Theorem relations_agree (db : list step) :
  (forall f c,
      src_2_cmd (load db) !! f = Some c ->
      c ∈ cmd_order (load db)
      /\ exists sources, cmd_2_src (load db) !! c = Some sources /\ f ∈ sources)
  /\ (forall c sources f,
        cmd_2_src (load db) !! c = Some sources -> f ∈ sources ->
        f ∈ src_order (load db) /\ is_Some (src_2_cmd (load db) !! f))
  /\ (forall f, f ∈ src_order (load db) ->
                is_Some (src_2_cmd (load db) !! f))
  /\ (forall c, c ∈ cmd_order (load db) ->
                is_Some (cmd_2_src (load db) !! c)).
Proof.
  split; [|split; [|split]].
  - intros f c Hf.
    assert (f ∈ files_of c db) as Hin.
    { assert (is_Some (src_2_cmd (load db) !! f)) as Hk by eauto.
      apply src_2_cmd_key, list_elem_of_fmap in Hk as (r0 & -> & Hr0).
      apply accepted_elem in Hr0 as [_ Hm].
      rewrite (src_2_cmd_first db (file r0) Hm) in Hf.
      destruct (List.find _ db) as [r|] eqn:Efind; [|done].
      injection Hf as <-. apply List.find_some in Efind as [Hr He].
      apply String.eqb_eq in He.
      apply files_of_elem. exists r. split; [|done].
      apply accepted_elem. split; [by apply list_elem_of_In|by rewrite He]. }
    split.
    + rewrite cmd_order_nub, nub_in.
      apply files_of_elem in Hin as (r & Hr & <- & _).
      apply list_elem_of_fmap. eauto.
    + exists (files_of c db). split; [|done].
      rewrite cmd_2_src_files_of.
      destruct (files_of c db); [by apply elem_of_nil in Hin|done].
  - intros c sources f Hc Hf.
    rewrite cmd_2_src_files_of in Hc.
    assert (f ∈ files_of c db) as Hin
      by (destruct (files_of c db); [done|by injection Hc as <-]).
    apply files_of_elem in Hin as (r & Hr & _ & <-).
    assert (file r ∈ file <$> accepted db) as Hk
      by (apply list_elem_of_fmap; eauto).
    split; [by rewrite src_order_nub, nub_in|by apply src_2_cmd_key].
  - intros f. rewrite src_order_nub, nub_in. apply src_2_cmd_key.
  - intros c. rewrite cmd_order_nub, nub_in. apply cmd_2_src_key.
Qed.

Lemma relations_agree_witness :
  "cc -O2" ∈ cmd_order (load [Step "a.c" "cc -O2"; Step "a.c" "cc -g"])
  /\ is_Some (cmd_2_src (load [Step "a.c" "cc -O2"; Step "a.c" "cc -g"])
                !! "cc -g").
Proof.
  destruct (relations_agree [Step "a.c" "cc -O2"; Step "a.c" "cc -g"])
    as (H1 & _ & _ & H4).
  split.
  - apply (H1 "a.c" "cc -O2"). reflexivity.
  - apply H4. apply list_elem_of_In. vm_compute. auto.
Defined.

Lemma accepted_idemp (db : list step) : accepted (accepted db) = accepted db.
Proof.
  unfold accepted. induction db as [|r db IH]; [reflexivity|]. simpl.
  destruct (src_pattern_match (file r)) eqn:E; [|done].
  simpl. by rewrite E, IH.
Qed.

(** X4: the records that the pattern rejects have no effect at all:
    loading a database and loading only its accepted records give the same
    four relations. *)
Theorem load_accepted (db : list step) : load (accepted db) = load db.
Proof.
  induction db as [|r db IH] using rev_ind; [reflexivity|].
  rewrite accepted_snoc, load_snoc. unfold load_step.
  destruct (src_pattern_match (file r)) eqn:E.
  - rewrite load_snoc. unfold load_step. by rewrite E, IH.
  - by rewrite app_nil_r.
Qed.

(** X5: records that come later only add.  After more records are loaded
    the earlier entries of [src_2_cmd] are as they were, both order lists
    have the earlier lists as a prefix, and every earlier group is a prefix
    of the group it has become. *)
Theorem load_extends (db1 db2 : list step) :
  src_2_cmd (load db1) ⊆ src_2_cmd (load (db1 ++ db2))
  /\ src_order (load db1) `prefix_of` src_order (load (db1 ++ db2))
  /\ cmd_order (load db1) `prefix_of` cmd_order (load (db1 ++ db2))
  /\ (forall c sources,
        cmd_2_src (load db1) !! c = Some sources ->
        exists sources',
          cmd_2_src (load (db1 ++ db2)) !! c = Some sources'
          /\ sources `prefix_of` sources').
Proof.
  induction db2 as [|r db2 (IH1 & IH2 & IH3 & IH4)] using rev_ind.
  - rewrite app_nil_r. repeat split; try done. intros c sources H. eauto.
  - rewrite app_assoc, load_snoc, load_step_src_2_cmd, load_step_src_order,
      load_step_cmd_order, load_step_cmd_2_src.
    destruct (src_pattern_match (file r)); [|done].
    split; [|split; [|split]].
    + destruct (src_2_cmd (load (db1 ++ db2)) !! file r) eqn:E; [done|].
      etrans; [exact IH1|]. by apply insert_subseteq.
    + destruct (src_2_cmd (load (db1 ++ db2)) !! file r); [done|].
      etrans; [exact IH2|]. by apply prefix_app_r.
    + destruct (cmd_2_src (load (db1 ++ db2)) !! command r); [done|].
      etrans; [exact IH3|]. by apply prefix_app_r.
    + intros c sources Hc. destruct (IH4 c sources Hc) as (s' & Hs' & Hp).
      destruct (cmd_2_src (load (db1 ++ db2)) !! command r) as [old|] eqn:E.
      * destruct (decide (command r = c)) as [<-|Hne].
        -- rewrite lookup_insert_eq. eexists. split; [done|].
           rewrite E in Hs'. injection Hs' as <-. by apply prefix_app_r.
        -- rewrite lookup_insert_ne by done. eauto.
      * destruct (decide (command r = c)) as [<-|Hne]; [congruence|].
        rewrite lookup_insert_ne by done. eauto.
Qed.

Lemma load_extends_witness :
  exists sources',
    cmd_2_src (load ([Step "a.c" "cc"] ++ [Step "b.c" "cc"])) !! "cc"
    = Some sources'
    /\ ["a.c"] `prefix_of` sources'.
Proof.
  destruct (load_extends [Step "a.c" "cc"] [Step "b.c" "cc"])
    as (_ & _ & _ & H).
  apply (H "cc" ["a.c"]). reflexivity.
Defined.

(** ** The argument filter: what it returns *)

Lemma rev_acc_nonempty (s acc : string) :
  Str.rev_acc s acc = "" -> s = "" /\ acc = "".
Proof.
  revert acc. induction s as [|c s IH]; intros acc H; [done|].
  simpl in H. apply IH in H as [_ H]. discriminate H.
Qed.

Lemma split_acc_nonempty (cur s : string) :
  Forall (fun t => t <> "") (Str.split_acc cur s).
Proof.
  revert cur. induction s as [|c s IH]; intros cur.
  - cbn [Str.split_acc]. destruct cur as [|d cur]; [constructor|].
    constructor; [|constructor].
    intros H. apply rev_acc_nonempty in H as [H _]. discriminate H.
  - cbn [Str.split_acc]. destruct (Str.is_space c); [|apply IH].
    destruct cur as [|d cur]; [apply IH|].
    constructor; [|apply IH].
    intros H. apply rev_acc_nonempty in H as [H _]. discriminate H.
Qed.

Lemma filter_sublist {A : Type} (p : A -> bool) (l : list A) :
  List.filter p l `sublist_of` l.
Proof.
  induction l as [|x l IH]; [constructor|]. simpl.
  destruct (p x); by constructor.
Qed.

Lemma drop_while_sublist {A : Type} (p : A -> bool) (l : list A) :
  drop_while p l `sublist_of` l.
Proof.
  induction l as [|x l IH]; [constructor|]. simpl.
  destruct (p x); [by constructor|done].
Qed.

Lemma tl_sublist {A : Type} (l : list A) : List.tl l `sublist_of` l.
Proof. destruct l as [|x k]; simpl; [constructor|by apply sublist_cons]. Qed.

Lemma tl_drop_while_length {A : Type} (p : A -> bool) (l : list A) :
  l <> [] -> length (List.tl (drop_while p l)) < length l.
Proof.
  intros Hne. induction l as [|x l IH]; [done|]. simpl.
  destruct (p x); [|simpl; lia].
  destruct l as [|y l]; [simpl; lia|].
  assert (length (List.tl (drop_while p (y :: l))) < length (y :: l))
    by (apply IH; discriminate).
  simpl in *. lia.
Qed.

Lemma filter_length_le {A : Type} (p : A -> bool) (l : list A) :
  length (List.filter p l) <= length l.
Proof.
  induction l as [|x l IH]; [done|]. simpl. destruct (p x); simpl; lia.
Qed.

(** X6: what [get_command_arguments] returns.  Every argument is a token
    of the command (not empty, without white space) that the source pattern
    does not match; the arguments keep the order of the command; and at
    least one token, the command word, is left out whenever the command has
    a token at all. *)
Theorem get_command_arguments_tokens (cmd : string) :
  Forall (fun t => src_pattern_match t = false /\ no_space t = true
                   /\ t <> "")
    (get_command_arguments cmd)
  /\ get_command_arguments cmd `sublist_of` Str.split cmd
  /\ (Str.split cmd <> [] ->
      length (get_command_arguments cmd) < length (Str.split cmd)).
Proof.
  unfold get_command_arguments. rewrite arg_step_leading.
  set (rest := List.tl (drop_while (Str.contains_char "=") (Str.split cmd))).
  assert (rest `sublist_of` Str.split cmd) as Hsub.
  { subst rest. etrans; [apply tl_sublist|apply drop_while_sublist]. }
  split; [|split].
  - apply Forall_forall. intros t Ht.
    apply list_elem_of_In, List.filter_In in Ht as [Ht Hm].
    apply list_elem_of_In in Ht.
    assert (t ∈ Str.split cmd) as Hin by (by eapply elem_of_sublist).
    split; [by apply negb_true_iff|]. split.
    + pose proof (split_no_space cmd) as H.
      by apply (proj1 (Forall_forall _ _) H).
    + pose proof (split_acc_nonempty "" cmd) as H.
      by apply (proj1 (Forall_forall _ _) H).
  - etrans; [apply filter_sublist|done].
  - intros Hne. eapply Nat.le_lt_trans; [apply filter_length_le|].
    subst rest. by apply tl_drop_while_length.
Qed.

Lemma get_command_arguments_tokens_witness :
  length (get_command_arguments "CC=gcc gcc -c a.c")
  < length (Str.split "CC=gcc gcc -c a.c").
Proof.
  destruct (get_command_arguments_tokens "CC=gcc gcc -c a.c") as (_ & _ & H).
  apply H. discriminate.
Defined.

(** ** The tasks of the two phases *)

Lemma list_to_set_nub (l : list string) :
  (list_to_set (nub l) : gset string) = list_to_set l.
Proof.
  apply set_eq. intros x. by rewrite !elem_of_list_to_set, nub_in.
Qed.

Lemma src_order_length (db : list step) :
  length (src_order (load db)) = distinct (file <$> accepted db).
Proof.
  rewrite src_order_nub. unfold distinct.
  rewrite <- list_to_set_nub. symmetry. apply size_list_to_set, nub_NoDup.
Qed.


Lemma calls_cons (r : list action * option exn)
  (rs : list (list action * option exn)) :
  calls (r :: rs) = (calls [r] ++ calls rs)%list.
Proof. unfold calls. simpl. by rewrite app_nil_r. Qed.

Lemma emit_ast_calls (w : world) (a : mainargs) (cmd source : string) :
  length (calls [emit_ast w a cmd source]) <= 1
  /\ ((forall c, is_Some (check_output w c)) ->
      (forall d, makedirs w d || isdir w d = true) ->
      length (calls [emit_ast w a cmd source]) = 1).
Proof.
  split.
  - unfold emit_ast. destruct (check_output w _); [|simpl; lia].
    destruct (makedirs w _ || isdir w _); simpl; lia.
  - intros Hout Hdir.
    by destruct (emit_ast_answered w a cmd source Hout Hdir) as (c & d & ->).
Qed.

(** X7: Phase 1 on any database.  There is one task per distinct accepted
    file, in the order of [src_order]; the task of a file is built from
    the command [src_2_cmd] gives it, so no task fails on the lookup; a task
    emits at most one AST, and exactly one when the architecture extractor
    answers and the directory is there or can be made. *)
Theorem phase1_tasks (w : world) (a : mainargs) (db : list step) :
  length (phase1 w a (load db)) = distinct (file <$> accepted db)
  /\ Forall2
       (fun f res =>
          exists c, src_2_cmd (load db) !! f = Some c
                    /\ res = emit_ast w a c f)
       (src_order (load db)) (phase1 w a (load db))
  /\ length (calls (phase1 w a (load db))) <= distinct (file <$> accepted db)
  /\ ((forall c, is_Some (check_output w c)) ->
      (forall d, makedirs w d || isdir w d = true) ->
      length (calls (phase1 w a (load db)))
      = distinct (file <$> accepted db)).
Proof.
  rewrite <- src_order_length. unfold phase1.
  pose proof (src_order_has_entry db) as Hkeys.
  revert Hkeys. generalize (src_order (load db)) as l.
  induction l as [|f l IH]; intros Hkeys.
  - repeat split; first [done | constructor].
  - destruct IH as (IH1 & IH2 & IH3 & IH4).
    { intros g Hg. apply Hkeys. by right. }
    destruct (Hkeys f) as [c Hc]; [by left|].
    assert (generate_ast w a (load db) f = emit_ast w a c f) as Hgen
      by (unfold generate_ast; by rewrite Hc).
    cbn [map]. rewrite calls_cons, length_app, Hgen.
    destruct (emit_ast_calls w a c f) as [Hle Heq].
    split; [simpl; by rewrite length_map|]. split; [|split].
    + constructor; [eauto|done].
    + simpl in *. lia.
    + intros Hout Hdir. rewrite (Heq Hout Hdir), (IH4 Hout Hdir). reflexivity.
Qed.

Lemma phase1_tasks_witness :
  let w := {| check_output := fun _ => Some "@x86_64";
              realpath := fun s => "/src/" ++ s;
              makedirs := fun _ => false;
              isdir := fun _ => true;
              unlink_denied := fun _ => false |} in
  let a := Mainargs "build.json" ".xtu" 4 false "/opt/clang/bin" in
  length (calls (phase1 w a (load [Step "a.c" "cc"; Step "a.c" "cc -g";
                                   Step "b.c" "cc"])))
  = 2.
Proof.
  intros w a.
  destruct (phase1_tasks w a [Step "a.c" "cc"; Step "a.c" "cc -g";
                              Step "b.c" "cc"]) as (_ & _ & _ & H).
  rewrite H; [by vm_compute| |reflexivity].
  intros c. by exists "@x86_64".
Defined.


(** ** The directory of the tools *)

(** X11: the directory the tools are taken from always ends with a
    separator, so every command line starts with a directory, a separator
    and the name of the tool; a directory given with its separator is kept
    as it is, and the empty directory becomes the root. *)
Theorem clang_path_separator (a : mainargs) :
  Str.endswith "/" (clang_path a) = true
  /\ (Str.endswith "/" (clang_path_arg a) = true ->
      clang_path a = clang_path_arg a)
  /\ (clang_path_arg a = "" -> clang_path a = "/")
  /\ exists dir,
      forall args source path sources,
        arch_command a args source
        = dir ++ "/clang-cmdline-arch-extractor " ++ Str.join " " args
          ++ " " ++ source
        /\ ast_command a args source path
           = dir ++ "/clang -emit-ast " ++ Str.join " " args ++ " -w "
             ++ source ++ " -o " ++ path
        /\ funcmap_command a sources args
           = dir ++ "/clang-func-mapping --xtu-dir " ++ xtuindir a ++ " "
             ++ Str.join " " sources ++ " -- " ++ Str.join " " args.
Proof.
  assert (Str.endswith "/" (clang_path a) = true) as Hend.
  { unfold clang_path.
    destruct (Str.endswith "/" (clang_path_arg a)) eqn:E; [done|].
    by rewrite (endswith_append "/" _ "/"). }
  split; [done|]. split; [|split].
  - intros H. unfold clang_path. by rewrite H.
  - intros H. unfold clang_path. by rewrite H.
  - apply endswith_iff in Hend as [dir Hd]. exists dir.
    intros args source path sources.
    unfold arch_command, ast_command, funcmap_command.
    rewrite Hd, !append_assoc. done.
Qed.

Lemma clang_path_separator_witness :
  clang_path (Mainargs "build.json" ".xtu" 4 false "/opt/bin/") = "/opt/bin/"
  /\ clang_path (Mainargs "build.json" ".xtu" 4 false "") = "/".
Proof.
  destruct (clang_path_separator
              (Mainargs "build.json" ".xtu" 4 false "/opt/bin/"))
    as (_ & H1 & _).
  destruct (clang_path_separator (Mainargs "build.json" ".xtu" 4 false ""))
    as (_ & _ & H2 & _).
  split; [apply H1|apply H2]; reflexivity.
Defined.

(** ** The artifact path: where it can and cannot point *)

Lemma os_path_join_endswith (a b p : string) :
  Str.endswith p b = true -> Str.endswith p (os_path_join a b) = true.
Proof.
  intros [x ->]%endswith_iff. apply endswith_iff. unfold os_path_join.
  destruct (Str.startswith "/" (x ++ p)); [by exists x|].
  destruct (String.eqb a "" || Str.endswith "/" a).
  - exists (a ++ x). by rewrite append_assoc.
  - exists (a ++ "/" ++ x). by rewrite !append_assoc.
Qed.

Lemma inner_join_ast (arch rest : string) :
  exists x, x <> ""
            /\ os_path_join ("/ast/" ++ arch) (rest ++ ".ast") = x ++ ".ast".
Proof.
  unfold os_path_join.
  destruct (Str.startswith "/" (rest ++ ".ast")) eqn:E.
  - exists rest. split; [|done]. intros ->. discriminate E.
  - destruct (String.eqb ("/ast/" ++ arch) "" || Str.endswith "/" ("/ast/" ++ arch)).
    + exists (("/ast/" ++ arch) ++ rest). split; [discriminate|].
      by rewrite !append_assoc.
    + exists (("/ast/" ++ arch) ++ "/" ++ rest). split; [discriminate|].
      by rewrite !append_assoc.
Qed.

Lemma ast_path_endswith (xtudir arch real : string) :
  Str.endswith ".ast" (ast_path xtudir arch real) = true.
Proof.
  unfold ast_path.
  destruct (inner_join_ast arch (Str.tail real)) as (x & Hx & ->).
  apply os_path_join_endswith, endswith_iff.
  destruct x as [|c x]; [done|]. by exists x.
Qed.

Lemma slash_free_split (a b x y : string) :
  Str.contains_char "/" a = false -> Str.contains_char "/" b = false ->
  a ++ String "/" x = b ++ String "/" y -> a = b /\ x = y.
Proof.
  revert b. induction a as [|c a IH]; intros [|d b] Ha Hb H.
  - rewrite !append_nil in H. by injection H as ->.
  - rewrite append_nil, append_cons in H. injection H as <- _.
    cbn [Str.contains_char] in Hb. by rewrite Ascii.eqb_refl in Hb.
  - rewrite append_nil, append_cons in H. injection H as -> _.
    cbn [Str.contains_char] in Ha. by rewrite Ascii.eqb_refl in Ha.
  - rewrite !append_cons in H. injection H as -> H.
    cbn [Str.contains_char] in Ha, Hb.
    apply orb_false_iff in Ha as [_ Ha]. apply orb_false_iff in Hb as [_ Hb].
    destruct (IH b Ha Hb H) as [-> ->]. done.
Qed.

Lemma slash_free_with_sep (arch : string) :
  arch <> "" -> Str.contains_char "/" arch = false ->
  with_sep arch = arch ++ "/".
Proof.
  intros Hne Hs. apply with_sep_plain; [done|].
  destruct (Str.endswith "/" arch) eqn:E; [|done].
  apply endswith_iff in E as [x ->]. exfalso. clear Hne.
  induction x as [|c x IH].
  - discriminate Hs.
  - rewrite append_cons in Hs. cbn [Str.contains_char] in Hs.
    apply orb_false_iff in Hs as [_ Hs]. auto.
Qed.

(** X12: every artifact path ends in .ast, so Phase 1 never writes one of
    the three aggregate outputs; and under one output directory two
    different pairs of an architecture (not empty, without a separator) and
    a realpath never give the same path, so the ASTs of different
    architectures do not overwrite each other. *)
Theorem ast_path_separation :
  (forall xtudir arch real,
      Str.endswith ".ast" (ast_path xtudir arch real) = true)
  /\ (forall a arch real,
        ast_path (xtuindir a) arch real ∉ aggregate_outputs a)
  /\ (forall xtudir arch1 arch2 real1 real2,
        is_realpath real1 = true -> is_realpath real2 = true ->
        arch1 <> "" -> arch2 <> "" ->
        Str.contains_char "/" arch1 = false ->
        Str.contains_char "/" arch2 = false ->
        ast_path xtudir arch1 real1 = ast_path xtudir arch2 real2 ->
        arch1 = arch2 /\ real1 = real2).
Proof.
  split; [exact ast_path_endswith|]. split.
  - intros a arch real Hin.
    pose proof (ast_path_endswith (xtuindir a) arch real) as He.
    apply endswith_iff in He as [x Hx].
    unfold aggregate_outputs in Hin.
    rewrite !elem_of_cons, elem_of_nil in Hin.
    destruct Hin as [H|[H|[H|[]]]]; rewrite Hx in H.
    + replace (xtuindir a ++ "/cfg.txt")
        with ((xtuindir a ++ "/cfg") ++ ".txt") in H
        by (by rewrite append_assoc).
      apply append_same_length_tail in H; [discriminate H|reflexivity].
    + replace (xtuindir a ++ "/definedFns.txt")
        with ((xtuindir a ++ "/definedFns") ++ ".txt") in H
        by (by rewrite append_assoc).
      apply append_same_length_tail in H; [discriminate H|reflexivity].
    + replace (xtuindir a ++ "/externalFns.txt")
        with ((xtuindir a ++ "/externalFns") ++ ".txt") in H
        by (by rewrite append_assoc).
      apply append_same_length_tail in H; [discriminate H|reflexivity].
  - intros xtudir arch1 arch2 real1 real2 H1 H2 Hn1 Hn2 Hs1 Hs2 Heq.
    rewrite !ast_path_closed_form in Heq by done.
    rewrite (slash_free_with_sep arch1), (slash_free_with_sep arch2) in Heq
      by done.
    apply append_inv_head in Heq. apply append_inv_head in Heq.
    rewrite !append_assoc in Heq.
    apply slash_free_split in Heq as [-> Heq]; [|done..].
    split; [done|]. apply append_inv_tail in Heq.
    apply realpath_tail in H1 as [E1 _]. apply realpath_tail in H2 as [E2 _].
    rewrite E1, E2. by rewrite Heq.
Qed.

Lemma ast_path_separation_witness :
  "x86_64" = "x86_64" /\ "/home/u/a.c" = "/home/u/a.c".
Proof.
  destruct ast_path_separation as (_ & _ & H).
  apply (H ".xtu" "x86_64" "x86_64" "/home/u/a.c" "/home/u/a.c");
    reflexivity || discriminate.
Defined.

(** ** The architecture parse: the marker and the ends *)

Lemma rfind_from_app (c : ascii) (a b : string) (i last : Z) :
  Str.rfind_from c (a ++ b) i last
  = Str.rfind_from c b (i + Z.of_nat (String.length a))
      (Str.rfind_from c a i last).
Proof.
  revert i last. induction a as [|d a IH]; intros i last.
  - rewrite append_nil. simpl. by rewrite Z.add_0_r.
  - rewrite append_cons. cbn [Str.rfind_from String.length]. rewrite IH.
    f_equal. lia.
Qed.

Lemma drop_app_length (a b : string) :
  Str.drop (String.length a) (a ++ b) = b.
Proof. induction a as [|c a IH]; [by destruct b|]. by rewrite append_cons. Qed.

Lemma contains_char_last (c : ascii) (s : string) :
  Str.contains_char c s = true ->
  exists pre post, s = pre ++ String c post
                   /\ Str.contains_char c post = false.
Proof.
  induction s as [|d s IH]; [done|]. cbn [Str.contains_char]. intros H.
  destruct (Str.contains_char c s) eqn:E.
  - destruct (IH eq_refl) as (pre & post & -> & Hp).
    exists (String d pre), post. by rewrite append_cons.
  - rewrite orb_false_r in H. apply Ascii.eqb_eq in H as <-.
    by exists "", s.
Qed.

Lemma contains_char_rev_acc (c : ascii) (s acc : string) :
  Str.contains_char c (Str.rev_acc s acc)
  = Str.contains_char c s || Str.contains_char c acc.
Proof.
  revert acc. induction s as [|d s IH]; intros acc; [reflexivity|].
  cbn [Str.rev_acc Str.contains_char]. rewrite IH.
  cbn [Str.contains_char].
  destruct (Ascii.eqb c d), (Str.contains_char c s); reflexivity.
Qed.

Lemma contains_char_lstrip (c : ascii) (s : string) :
  Str.contains_char c s = false -> Str.contains_char c (Str.lstrip s) = false.
Proof.
  induction s as [|d s IH]; [done|]. intros H. cbn [Str.lstrip].
  destruct (Str.is_bspace d); [|done].
  cbn [Str.contains_char] in H. apply orb_false_iff in H as [_ H]. auto.
Qed.

Lemma contains_char_strip (c : ascii) (s : string) :
  Str.contains_char c s = false -> Str.contains_char c (Str.strip s) = false.
Proof.
  intros H. unfold Str.strip, Str.rev.
  rewrite contains_char_rev_acc, orb_false_r.
  apply contains_char_lstrip.
  rewrite contains_char_rev_acc, orb_false_r.
  by apply contains_char_lstrip.
Qed.

Lemma last_char_rev_acc (s acc : string) :
  last_char (Str.rev_acc s acc)
  = match acc with
    | EmptyString => first_char s
    | _ => last_char acc
    end.
Proof.
  revert acc. induction s as [|d s IH]; intros acc.
  - by destruct acc.
  - cbn [Str.rev_acc]. rewrite IH. cbn [last_char first_char].
    destruct acc as [|e acc]; [reflexivity|].
    cbn [last_char]. by destruct (last_char acc).
Qed.

Lemma first_char_rev_acc (s acc : string) :
  first_char (Str.rev_acc s acc)
  = match last_char s with
    | Some c => Some c
    | None => first_char acc
    end.
Proof.
  revert acc. induction s as [|d s IH]; intros acc; [reflexivity|].
  cbn [Str.rev_acc last_char]. rewrite IH.
  by destruct (last_char s).
Qed.

Lemma first_char_lstrip (s : string) (c : ascii) :
  first_char (Str.lstrip s) = Some c -> Str.is_bspace c = false.
Proof.
  induction s as [|d s IH]; [done|]. cbn [Str.lstrip].
  destruct (Str.is_bspace d) eqn:E; [done|]. by intros [= <-].
Qed.

Lemma last_char_lstrip (s : string) (c : ascii) :
  last_char (Str.lstrip s) = Some c -> last_char s = Some c.
Proof.
  induction s as [|d s IH]; [done|]. cbn [Str.lstrip].
  destruct (Str.is_bspace d); [|done].
  intros H. cbn [last_char]. by rewrite (IH H).
Qed.

Lemma strip_ends (s : string) (c : ascii) :
  first_char (Str.strip s) = Some c \/ last_char (Str.strip s) = Some c ->
  Str.is_bspace c = false.
Proof.
  unfold Str.strip, Str.rev.
  rewrite first_char_rev_acc, last_char_rev_acc. cbn [first_char].
  intros [H|H].
  - destruct (last_char (Str.lstrip (Str.rev_acc (Str.lstrip s) "")))
      as [d|] eqn:E; [|done].
    injection H as ->. apply last_char_lstrip in E.
    rewrite last_char_rev_acc in E. by apply first_char_lstrip in E.
  - by apply first_char_lstrip in H.
Qed.

(** X13: the architecture is read after the last at sign: when the output
    is some text, an at sign and a rest without at sign, the architecture
    is the rest with the white space at both ends removed.  Whatever the
    output, the architecture holds no at sign and neither starts nor ends
    with white space. *)
Theorem arch_of_output_last_marker :
  (forall pre post,
      Str.contains_char "@" post = false ->
      arch_of_output (pre ++ String "@" post) = Str.strip post)
  /\ (forall arch_output,
        Str.contains_char "@" (arch_of_output arch_output) = false)
  /\ (forall arch_output c,
        first_char (arch_of_output arch_output) = Some c
        \/ last_char (arch_of_output arch_output) = Some c ->
        Str.is_bspace c = false).
Proof.
  assert (forall pre post,
             Str.contains_char "@" post = false ->
             arch_of_output (pre ++ String "@" post) = Str.strip post) as H.
  { intros pre post Hp. unfold arch_of_output, Str.rfind.
    rewrite rfind_from_app. cbn [Str.rfind_from].
    rewrite Ascii.eqb_refl, (rfind_from_absent _ _ _ _ Hp).
    unfold Str.slice_from.
    assert ((0 + Z.of_nat (String.length pre) + 1 <? 0)%Z = false) as ->
      by (apply Z.ltb_ge; lia).
    replace (Z.to_nat (0 + Z.of_nat (String.length pre) + 1))
      with (String.length (pre ++ "@")) by (rewrite append_length; simpl; lia).
    replace (pre ++ String "@" post) with ((pre ++ "@") ++ post)
      by (by rewrite append_assoc).
    by rewrite drop_app_length. }
  split; [exact H|]. split.
  - intros out. destruct (Str.contains_char "@" out) eqn:E.
    + apply contains_char_last in E as (pre & post & -> & Hp).
      rewrite (H pre post Hp). by apply contains_char_strip.
    + unfold arch_of_output. rewrite (rfind_absent _ _ E).
      change (-1 + 1)%Z with 0%Z. rewrite slice_from_0.
      by apply contains_char_strip.
  - intros out c. unfold arch_of_output. apply strip_ends.
Qed.

Lemma arch_of_output_last_marker_witness :
  arch_of_output ("gcc@linux@" ++ String "@" " armv7l ") = "armv7l"
  /\ Str.is_bspace "a"%char = false.
Proof.
  destruct arch_of_output_last_marker as (H1 & _ & H3). split.
  - rewrite (H1 "gcc@linux@" " armv7l "); reflexivity.
  - apply (H3 "@ armv7l " "a"%char). left. reflexivity.
Defined.

(** ** The pools: bounds, exactly-once, progress *)

Lemma occurrences_app (x : string) (l k : list string) :
  occurrences x (l ++ k) = occurrences x l + occurrences x k.
Proof. unfold occurrences. by rewrite List.filter_app, length_app. Qed.

Lemma occurrences_cons (x y : string) (l : list string) :
  occurrences x (y :: l)
  = (if String.eqb x y then 1 else 0) + occurrences x l.
Proof. unfold occurrences. simpl. by destruct (String.eqb x y). Qed.

Lemma count_event_snoc (e e' : event) (tr : list event) :
  count_event e (tr ++ [e'])
  = count_event e tr + if same_event e e' then 1 else 0.
Proof.
  unfold count_event. rewrite List.filter_app, length_app. simpl.
  by destruct (same_event e e').
Qed.

Lemma occurrences_nil (x : string) : occurrences x [] = 0.
Proof. reflexivity. Qed.

Lemma count_event_nil (e : event) : count_event e [] = 0.
Proof. reflexivity. Qed.

Create Rewrite HintDb count.
#[local] Hint Rewrite occurrences_app occurrences_cons occurrences_nil
  count_event_snoc count_event_nil : count.

(** Closes a counting goal about the task [x] from the counts before the
    step. *)
Ltac count_solve :=
  let x := fresh "x" in
  cbn [at_pc ast_workers funcmap_workers trace queue running todo1 todo2
       pools_init] in *;
  intros x;
  repeat match goal with
         | H : forall _ : string, _ |- _ => specialize (H x)
         end;
  autorewrite with count in *; cbn [same_event] in *;
  repeat match goal with
         | |- context [String.eqb x ?y] => destruct (String.eqb x y)
         | H : context [String.eqb x ?y] |- _ => destruct (String.eqb x y)
         end;
  lia.

Lemma pools_count_init (st : relations) : pools_count st (pools_init st).
Proof. split; [count_solve..|done]. Qed.

Lemma pools_count_step (threads : nat) (st : relations) (s s' : sys) :
  pools_inv st s -> pools_count st s -> pool_step threads st s s' ->
  pools_count st s'.
Proof.
  intros [_ Hph _] [H1 B1 H2 B2 Hex] Hstep.
  inversion Hstep; subst;
    cbn [at_pc ast_workers funcmap_workers trace queue running todo1 todo2]
      in *.
  - (* submit1 *) split; [count_solve..|done].
  - (* close1 *) split; [count_solve..|done].
  - (* join1 *) split; [count_solve..|done].
  - (* submit2 *) split; [count_solve..|done].
  - (* close2 *) split; [count_solve..|done].
  - (* join2 *) split; [count_solve..|done].
  - (* start1 *)
    assert (here <> Exited) by (intros ->; discriminate Hph).
    split; [count_solve..|done].
  - (* end1 *)
    assert (here <> Exited)
      by (intros ->; injection Hph as _ Hr; destruct r1; discriminate Hr).
    split; [count_solve..|done].
  - (* start2 *)
    assert (here <> Exited)
      by (intros ->; specialize (Hex eq_refl); discriminate Hex).
    split; [count_solve..|done].
  - (* end2 *)
    assert (here <> Exited)
      by (intros ->; specialize (Hex eq_refl); injection Hex as _ Hr;
          destruct r1; discriminate Hr).
    split; [count_solve..|done].
Qed.

Lemma pools_count_reachable (threads : nat) (st : relations) (s : sys) :
  rtc (pool_step threads st) (pools_init st) s ->
  pools_inv st s /\ pools_count st s.
Proof.
  revert s. apply rtc_ind_r.
  - split; [apply pools_inv_init|apply pools_count_init].
  - intros s s' _ Hstep [Hi Hc]. split.
    + by apply (pools_inv_step threads st s).
    + by apply (pools_count_step threads st s).
Qed.

Lemma pools_bounded (threads : nat) (st : relations) (s : sys) :
  rtc (pool_step threads st) (pools_init st) s ->
  length (running (ast_workers s)) <= threads
  /\ length (running (funcmap_workers s)) <= threads.
Proof.
  revert s. apply rtc_ind_r; [simpl; lia|].
  intros s s' _ Hstep [H1 H2].
  inversion Hstep; subst; simpl in *; rewrite ?length_app in *;
    simpl in *; lia.
Qed.

(** X14: the two pools are bounded and never work at the same time.  In
    every state the pools can reach, each pool runs at most [threads] tasks,
    and one of the two pools has neither a queued nor a running task. *)
Theorem pools_bounded_disjoint (threads : nat) (db : list step) (s : sys) :
  rtc (pool_step threads (load db)) (pools_init (load db)) s ->
  length (running (ast_workers s)) <= threads
  /\ length (running (funcmap_workers s)) <= threads
  /\ (ast_workers s = Pool [] [] \/ funcmap_workers s = Pool [] []).
Proof.
  intros Hreach.
  destruct (pools_bounded threads (load db) s Hreach) as [H1 H2].
  split; [done|]. split; [done|].
  destruct (pools_inv_reachable threads (load db) s Hreach) as [_ Hph _].
  destruct (at_pc s); first [by right; destruct Hph | by left].
Qed.

Lemma pools_bounded_disjoint_witness :
  length (running (funcmap_workers
                     (Sys Join2 (Pool [] []) (Pool [] ["CC1"])
                        [Begin Phase1 "a.cpp"; End Phase1 "a.cpp";
                         Begin Phase2 "CC1"]))) <= 1.
Proof.
  apply (pools_bounded_disjoint 1 [Step "a.cpp" "CC1"] _ pools_run_example).
Defined.

Lemma src_order_occurrences (db : list step) (x : string) :
  occurrences x (src_order (load db))
  = if decide (x ∈ src_order (load db)) then 1 else 0.
Proof.
  rewrite src_order_keys. case_decide as H.
  - rewrite src_order_nub, nub_in in H.
    by apply src_2_cmd_key in H as [c ->].
  - destruct (src_2_cmd (load db) !! x) eqn:E; [|done].
    destruct H. rewrite src_order_nub, nub_in. apply src_2_cmd_key. eauto.
Qed.

Lemma cmd_order_occurrences (db : list step) (c : string) :
  occurrences c (cmd_order (load db))
  = if decide (c ∈ cmd_order (load db)) then 1 else 0.
Proof.
  rewrite cmd_order_keys. case_decide as H.
  - rewrite cmd_order_nub, nub_in in H.
    by apply cmd_2_src_key in H as [l ->].
  - destruct (cmd_2_src (load db) !! c) eqn:E; [|done].
    destruct H. rewrite cmd_order_nub, nub_in. apply cmd_2_src_key. eauto.
Qed.

(** X15: no task is lost and none runs twice.  In every state the pools
    can reach, a task has ended at most as often as it has begun, and it
    has begun at most once; once the driver has left the second join, both
    pools are empty and the task of every source and of every command has
    begun exactly once and ended exactly once. *)
Theorem tasks_exactly_once (threads : nat) (db : list step) (s : sys) :
  rtc (pool_step threads (load db)) (pools_init (load db)) s ->
  (forall ph x,
      count_event (End ph x) (trace s) <= count_event (Begin ph x) (trace s)
      /\ count_event (Begin ph x) (trace s) <= 1)
  /\ (at_pc s = Exited ->
      ast_workers s = Pool [] [] /\ funcmap_workers s = Pool [] []
      /\ (forall x, x ∈ src_order (load db) ->
                    count_event (Begin Phase1 x) (trace s) = 1
                    /\ count_event (End Phase1 x) (trace s) = 1)
      /\ (forall c, c ∈ cmd_order (load db) ->
                    count_event (Begin Phase2 c) (trace s) = 1
                    /\ count_event (End Phase2 c) (trace s) = 1)).
Proof.
  intros Hreach.
  destruct (pools_count_reachable threads (load db) s Hreach)
    as [[_ Hph _] [H1 B1 H2 B2 Hex]].
  split.
  - intros ph x. destruct ph.
    + specialize (H1 x). specialize (B1 x).
      rewrite src_order_occurrences in H1. case_decide; lia.
    + specialize (H2 x). specialize (B2 x).
      rewrite cmd_order_occurrences in H2. case_decide; lia.
  - intros Hexit. specialize (Hex Hexit). rewrite Hexit in *.
    cbn [todo1 todo2] in *. rewrite Hph, Hex in *.
    split; [done|]. split; [done|]. split.
    + intros x Hx. specialize (H1 x). specialize (B1 x).
      rewrite src_order_occurrences in H1.
      autorewrite with count in *. case_decide; [lia|done].
    + intros c Hc. specialize (H2 c). specialize (B2 c).
      rewrite cmd_order_occurrences in H2.
      autorewrite with count in *. case_decide; [lia|done].
Qed.

Lemma pools_run_to_exit :
  let st := load [Step "a.cpp" "CC1"] in
  rtc (pool_step 1 st) (pools_init st)
    (Sys Exited (Pool [] []) (Pool [] [])
       [Begin Phase1 "a.cpp"; End Phase1 "a.cpp"; Begin Phase2 "CC1";
        End Phase2 "CC1"]).
Proof.
  intros st. eapply rtc_trans; [apply pools_run_example|].
  eapply rtc_l; [apply (end2 1 st Join2 "CC1" [] [] [])|]. simpl.
  eapply rtc_l; [apply join2|]. apply rtc_refl.
Qed.

Lemma tasks_exactly_once_witness :
  count_event (Begin Phase2 "CC1")
    [Begin Phase1 "a.cpp"; End Phase1 "a.cpp"; Begin Phase2 "CC1";
     End Phase2 "CC1"] = 1.
Proof.
  destruct (tasks_exactly_once 1 [Step "a.cpp" "CC1"] _ pools_run_to_exit)
    as (_ & H).
  destruct (H eq_refl) as (_ & _ & _ & H2).
  apply (H2 "CC1"). apply list_elem_of_In. vm_compute. auto.
Defined.



(** ** The reporting tool: selection of the runs *)

Lemma leb_trans (x y z : string) :
  String.leb x y = true -> String.leb y z = true -> String.leb x z = true.
Proof.
  intros H1%Is_true_true H2%Is_true_true. apply Is_true_true.
  exact (transitivity (R := String.le) H1 H2).
Qed.

Lemma leb_refl (x : string) : String.leb x x = true.
Proof. apply Is_true_true. exact (reflexivity (R := String.le) x). Qed.

Lemma greatest_spec (l : list string) :
  match greatest l with
  | None => l = []
  | Some m => m ∈ l /\ forall y, y ∈ l -> String.leb y m = true
  end.
Proof.
  induction l as [|x l IH]; [done|]. cbn [greatest].
  destruct (greatest l) as [m|].
  - destruct IH as [Hm Hmax]. destruct (String.leb x m) eqn:E.
    + split; [by right|]. intros y [->|Hy]%elem_of_cons; auto.
    + split; [by left|]. intros y [->|Hy]%elem_of_cons; [apply leb_refl|].
      destruct (String.leb_total x m) as [H|H]; [congruence|].
      eapply leb_trans; [by apply Hmax|done].
  - subst l. split; [by left|].
    intros y [->|Hy]%elem_of_cons; [apply leb_refl|by apply elem_of_nil in Hy].
Qed.

Lemma filter_elem {A : Type} (f : A -> bool) (l : list A) (x : A) :
  x ∈ List.filter f l <-> x ∈ l /\ f x = true.
Proof. by rewrite !list_elem_of_In, List.filter_In. Qed.

(** X17: the runs the tool asks results for.  Whatever the selector, every
    selected run is a run the server listed.  With [-n] the selected runs
    are the requested names that the server has, in the order of the
    request; with [-a] they are all the runs of the server. *)
Theorem project_names_existing (args : stats_args) (runs projects : list string) :
  project_names args runs = inr projects ->
  (forall p, p ∈ projects -> p ∈ runs)
  /\ (forall names, selected args = Names names ->
                    projects `sublist_of` names
                    /\ forall p, p ∈ projects <-> p ∈ names /\ p ∈ runs)
  /\ (selected args = All -> projects = runs).
Proof.
  unfold project_names. intros H.
  destruct (selected args) as [[|n ns]|project|]; try done.
  - assert (projects
            = List.filter (fun p => existsb (String.eqb p) runs) (n :: ns))
      as -> by congruence.
    clear H. split; [|split; [|done]].
    + intros p [_ Hp]%filter_elem. by apply existsb_eqb_elem.
    + intros names [= <-]. split; [apply filter_sublist|].
      intros p. rewrite filter_elem. by rewrite existsb_eqb_elem.
  - destruct project as [|c project]; [done|].
    set (cands := List.filter (mentions (String c project)) runs) in *.
    pose proof (greatest_spec
                  (List.filter
                     (fun p => negb (mentions "noXTU" p)
                               && negb (mentions "noxtu" p)) cands)) as Hx.
    pose proof (greatest_spec
                  (List.filter
                     (fun p => negb (negb (mentions "noXTU" p)
                                     && negb (mentions "noxtu" p))) cands))
      as Hn.
    destruct (greatest _) as [x|]; [|done].
    destruct (greatest _) as [n|]; [|done].
    injection H as <-. split; [|by split].
    destruct Hx as [Hx _], Hn as [Hn _].
    apply filter_elem in Hx as [Hx _]. apply filter_elem in Hn as [Hn _].
    apply filter_elem in Hx as [Hx _]. apply filter_elem in Hn as [Hn _].
    intros p. rewrite !elem_of_cons, elem_of_nil. by intros [->|[->|[]]].
  - injection H as <-. split; [done|]. split; [done|done].
Qed.

Lemma project_names_existing_witness :
  project_names
    (StatsArgs "localhost" "8001" (Names ["tmux_XTU"; "gone"]) true)
    ["tmux_XTU"; "vim_XTU"] = inr ["tmux_XTU"]
  /\ "tmux_XTU" ∈ ["tmux_XTU"; "vim_XTU"].
Proof.
  split; [reflexivity|].
  destruct (project_names_existing
              (StatsArgs "localhost" "8001" (Names ["tmux_XTU"; "gone"]) true)
              ["tmux_XTU"; "vim_XTU"] ["tmux_XTU"] eq_refl) as [H _].
  apply H, elem_of_cons. by left.
Defined.

(** X18: the selection by project ([-p] with a word that is not empty).
    When it succeeds it gives two runs, both with the word in their name:
    first the greatest run name without noXTU and noxtu in it, then the
    greatest run name with one of them.  It raises [IndexError] exactly when
    one of the two classes has no run with the word. *)
Theorem project_names_by_project (args : stats_args) (runs : list string)
  (project : string) :
  selected args = Project project -> project <> "" ->
  let candidates := List.filter (mentions project) runs in
  (forall projects,
      project_names args runs = inr projects ->
      exists x n,
        projects = [x; n]
        /\ x ∈ candidates /\ is_xtu x = true
        /\ n ∈ candidates /\ is_xtu n = false
        /\ (forall y, y ∈ candidates -> is_xtu y = true ->
                      String.leb y x = true)
        /\ (forall y, y ∈ candidates -> is_xtu y = false ->
                      String.leb y n = true))
  /\ (forall e, project_names args runs = inl e ->
                e = IndexError
                /\ (List.filter is_xtu candidates = []
                    \/ List.filter (fun p => negb (is_xtu p)) candidates = []))
  /\ (List.filter is_xtu candidates = []
      \/ List.filter (fun p => negb (is_xtu p)) candidates = [] ->
      project_names args runs = inl IndexError).
Proof.
  intros Hsel Hne candidates. unfold project_names. rewrite Hsel.
  destruct project as [|c project]; [done|].
  fold candidates. fold is_xtu.
  change (fun p => negb (mentions "noXTU" p) && negb (mentions "noxtu" p))
    with is_xtu.
  change (fun p => negb (negb (mentions "noXTU" p)
                          && negb (mentions "noxtu" p)))
    with (fun p => negb (is_xtu p)).
  pose proof (greatest_spec (List.filter is_xtu candidates)) as Hx.
  pose proof (greatest_spec
                (List.filter (fun p => negb (is_xtu p)) candidates)) as Hn.
  destruct (greatest (List.filter is_xtu candidates)) as [x|];
    destruct (greatest (List.filter (fun p => negb (is_xtu p)) candidates))
      as [n|].
  - destruct Hx as [Hx Hxmax], Hn as [Hn Hnmax].
    apply filter_elem in Hx as [Hx Hx']. apply filter_elem in Hn as [Hn Hn'].
    apply negb_true_iff in Hn'.
    split; [|split].
    + intros projects [= <-]. exists x, n. repeat split; try done.
      * intros y Hy Hy'. apply Hxmax, filter_elem. done.
      * intros y Hy Hy'. apply Hnmax, filter_elem.
        split; [done|by apply negb_true_iff].
    + intros e H. discriminate H.
    + intros [H|H].
      * assert (x ∈ List.filter is_xtu candidates) as Hin
          by (by apply filter_elem).
        rewrite H in Hin. by apply elem_of_nil in Hin.
      * assert (n ∈ List.filter (fun p => negb (is_xtu p)) candidates)
          as Hin by (apply filter_elem; split; [done|by apply negb_true_iff]).
        rewrite H in Hin. by apply elem_of_nil in Hin.
  - split; [done|]. split; [|done]. intros e [= <-]. auto.
  - split; [done|]. split; [|done]. intros e [= <-]. auto.
  - split; [done|]. split; [|done]. intros e [= <-]. auto.
Qed.

Lemma project_names_by_project_witness :
  project_names (StatsArgs "localhost" "8001" (Project "tmux") true)
    ["tmux_XTU_1"; "tmux_XTU_2"; "vim_noXTU"]
  = inl IndexError.
Proof.
  destruct (project_names_by_project
              (StatsArgs "localhost" "8001" (Project "tmux") true)
              ["tmux_XTU_1"; "tmux_XTU_2"; "vim_noXTU"] "tmux" eq_refl)
    as (_ & _ & H); [discriminate|].
  apply H. right. reflexivity.
Defined.

(** ** The reporting tool: the runs of the server and the loop *)

Lemma comprehension_Forall2 {A B : Type} (f : A -> exn + B) (l : list A)
  (ys : list B) :
  comprehension f l = inr ys <-> Forall2 (fun x y => f x = inr y) l ys.
Proof.
  revert ys. induction l as [|x l IH]; intros ys; simpl.
  - split; [by intros [= <-]; constructor|]. by intros ->%Forall2_nil_inv_l.
  - split.
    + destruct (f x) as [e|y] eqn:E; [done|].
      destruct (comprehension f l) as [e|ys'] eqn:El; [done|].
      intros [= <-]. constructor; [done|]. by apply IH.
    + intros (y & ys' & Hy & Hys & ->)%Forall2_cons_inv_l.
      rewrite Hy. apply IH in Hys. by rewrite Hys.
Qed.

Lemma first_key_inr (p : json) (run : string) :
  first_key p = inr run <-> exists v rest, p = JDict ((run, v) :: rest).
Proof.
  split.
  - destruct p as [| | | | |[|[k v] rest]]; try done.
    intros [= <-]. eauto.
  - by intros (v & rest & ->).
Qed.

(** X19: the run names are read off an array whose elements are all
    objects with at least one member, and they are the first keys of the
    elements in order; an array with an element of another kind, or with an
    empty object, gives no names but an exception. *)
Theorem existing_runs_first_keys (ps : list json) :
  (forall runs,
      existing_runs (JList ps) = inr runs
      <-> Forall2 (fun p run => exists v rest, p = JDict ((run, v) :: rest))
            ps runs)
  /\ ((exists p, p ∈ ps /\ forall run v rest, p <> JDict ((run, v) :: rest)) ->
      exists e, existing_runs (JList ps) = inl e).
Proof.
  assert (forall runs,
             existing_runs (JList ps) = inr runs
             <-> Forall2 (fun p run => exists v rest,
                              p = JDict ((run, v) :: rest)) ps runs) as H.
  { intros runs. unfold existing_runs, iterate.
    rewrite comprehension_Forall2.
    split; intros HF; eapply Forall2_impl; try exact HF;
      intros p run; by apply first_key_inr. }
  split; [exact H|].
  intros (p & Hp & Hbad).
  destruct (existing_runs (JList ps)) as [e|runs]; [by exists e|].
  pose proof (proj1 (H runs) eq_refl) as E.
  apply list_elem_of_lookup in Hp as [i Hi].
  destruct (Forall2_lookup_l _ _ _ _ _ E Hi) as (run & _ & v & rest & ->).
  by destruct (Hbad run v rest).
Qed.

Lemma existing_runs_first_keys_witness :
  existing_runs (JList [JDict [("a", JNum 1)]; JDict [("b", JNum 2)]])
  = inr ["a"; "b"]
  /\ exists e, existing_runs (JList [JDict [("a", JNum 1)]; JDict []]) = inl e.
Proof.
  split.
  - apply (proj1 (existing_runs_first_keys _)).
    repeat constructor; eauto.
  - apply (proj2 (existing_runs_first_keys _)).
    exists (JDict []). split; [|done].
    apply elem_of_cons. right. apply elem_of_cons. by left.
Defined.

Section Loop.

Variable call_command : list string -> string.
Variable json_loads : string -> option json.
Variable calculate_metrics make_histogram : list json -> option exn.
Variable args : stats_args.
Variable Histogram : bool.

(** What the results query of a run gives once it is parsed. *)
Let results_of (project : string) : option json :=
  json_loads
    (call_command
       (cc_command_builder args ["cmd"; "results"] ["--name"; project])).

Let loop : list string -> outcome :=
  results_loop call_command json_loads calculate_metrics make_histogram args
    Histogram.

Lemma results_loop_cons (project : string) (rest : list string) :
  loop (project :: rest)
  = match results_of project with
    | None => loop rest
    | Some results =>
        match bug_path_lengths results with
        | inl e => Uncaught e
        | inr lengths =>
            if existsb is_none lengths then Exit 2
            else
              match calculate_metrics lengths with
              | Some e => Uncaught e
              | None =>
                  if Histogram then
                    match make_histogram lengths with
                    | Some e => Uncaught e
                    | None => loop rest
                    end
                  else loop rest
              end
        end
    end.
Proof. reflexivity. Qed.

Lemma results_loop_finished (projects : list string) :
  loop projects = Finished
  <-> Forall
        (fun project =>
           match results_of project with
           | None => True
           | Some results =>
               processed calculate_metrics make_histogram Histogram results
           end)
        projects.
Proof.
  induction projects as [|q projects IH]; [by split; [constructor|]|].
  rewrite results_loop_cons, Forall_cons, <- IH.
  destruct (results_of q) as [results|]; [|tauto].
  unfold processed.
  destruct (bug_path_lengths results) as [e|lengths].
  { split; [done|]. by intros [(l & H & _) _]. }
  destruct (existsb is_none lengths) eqn:En.
  { split; [done|]. intros [(l & [= <-] & H & _) _]. congruence. }
  destruct (calculate_metrics lengths) as [e|] eqn:Ec.
  { split; [done|]. intros [(l & [= <-] & _ & H & _) _]. congruence. }
  destruct Histogram.
  - destruct (make_histogram lengths) as [e|] eqn:Eh.
    + split; [done|]. intros [(l & [= <-] & _ & _ & H) _].
      specialize (H eq_refl). congruence.
    + split; [|tauto]. intros H. split; [|done].
      exists lengths. by rewrite En, Ec.
  - split; [|tauto]. intros H. split; [|done].
    exists lengths. by rewrite En, Ec.
Qed.

Lemma results_loop_skip (before after : list string) (project : string) :
  results_of project = None ->
  loop (before ++ project :: after) = loop (before ++ after).
Proof.
  intros Hnone. induction before as [|q before IH].
  - simpl. by rewrite results_loop_cons, Hnone.
  - rewrite <- !app_comm_cons, !results_loop_cons, IH. reflexivity.
Qed.

Lemma results_loop_exit (projects : list string) (code : Z) :
  loop projects = Exit code ->
  code = 2%Z
  /\ exists project results lengths,
      project ∈ projects /\ results_of project = Some results
      /\ bug_path_lengths results = inr lengths
      /\ existsb is_none lengths = true.
Proof.
  induction projects as [|q projects IH]; [done|].
  rewrite results_loop_cons.
  assert (loop projects = Exit code ->
          code = 2%Z
          /\ exists project results lengths,
              project ∈ q :: projects /\ results_of project = Some results
              /\ bug_path_lengths results = inr lengths
              /\ existsb is_none lengths = true) as IH'.
  { intros H. destruct (IH H) as (-> & p & r & l & Hp & Hr).
    split; [done|]. exists p, r, l. split; [by right|done]. }
  destruct (results_of q) as [results|] eqn:Er; [|done].
  destruct (bug_path_lengths results) as [e|lengths] eqn:El; [done|].
  destruct (existsb is_none lengths) eqn:En.
  { intros [= <-]. split; [done|]. exists q, results, lengths.
    split; [by left|done]. }
  destruct (calculate_metrics lengths); [done|].
  destruct Histogram; [|done].
  by destruct (make_histogram lengths).
Qed.

End Loop.

(** X20: the loop over the selected runs.  A run whose results are no JSON
    is passed over, and the outcome is the one without it; the tool runs to
    its last line exactly when every selected run is either passed over in
    this way or read with the metric in every record and its statistics
    made without an exception. *)
Theorem results_loop_outcome call_command json_loads calculate_metrics
  make_histogram (args : stats_args) (Histogram : bool) :
  (forall before after project,
      json_loads
        (call_command
           (cc_command_builder args ["cmd"; "results"] ["--name"; project]))
      = None ->
      results_loop call_command json_loads calculate_metrics make_histogram
        args Histogram (before ++ project :: after)
      = results_loop call_command json_loads calculate_metrics make_histogram
          args Histogram (before ++ after))
  /\ (forall projects,
        results_loop call_command json_loads calculate_metrics make_histogram
          args Histogram projects = Finished
        <-> Forall
              (fun project =>
                 match json_loads
                         (call_command
                            (cc_command_builder args ["cmd"; "results"]
                               ["--name"; project]))
                 with
                 | None => True
                 | Some results =>
                     processed calculate_metrics make_histogram Histogram
                       results
                 end)
              projects).
Proof.
  split.
  - intros before after project H. by apply results_loop_skip.
  - intros projects. apply results_loop_finished.
Qed.

Lemma results_loop_outcome_witness :
  results_loop broken_service loads_example (fun _ => None) (fun _ => None)
    (StatsArgs "localhost" "8001" All false) false (["p"] ++ "q" :: ["r"])
  = results_loop broken_service loads_example (fun _ => None) (fun _ => None)
      (StatsArgs "localhost" "8001" All false) false (["p"] ++ ["r"]).
Proof.
  apply (proj1 (results_loop_outcome broken_service loads_example
                  (fun _ => None) (fun _ => None)
                  (StatsArgs "localhost" "8001" All false) false)).
  by vm_compute.
Defined.

Lemma exit_one (P Q : Prop) :
  P ->
  (Exit 1 = Exit 1 <-> P)
  /\ (forall code, Exit 1 = Exit code -> code = 1%Z \/ code = 2%Z)
  /\ (Exit 1 = Exit 2 -> Q).
Proof.
  intros HP. split; [done|]. split; [|done]. intros code [= <-]. by left.
Qed.

Lemma exit_other (o : outcome) (P Q : Prop) :
  ~ P -> (forall code, o = Exit code -> code = 2%Z /\ Q) ->
  (o = Exit 1 <-> P)
  /\ (forall code, o = Exit code -> code = 1%Z \/ code = 2%Z)
  /\ (o = Exit 2 -> Q).
Proof.
  intros HP Ho. split; [|split].
  - split; [|done]. intros H. by destruct (Ho _ H).
  - intros code H. right. by destruct (Ho _ H).
  - intros H. by destruct (Ho _ H).
Qed.

(** The calls of [sys.exit] once the command line is parsed: with 1
    exactly when the tool cannot start or cannot read the runs of the
    server, with 2 only for a record whose path-length metric is [None],
    and with nothing else. *)
Lemma bug_stats_exits call_command json_loads calculate_metrics
  make_histogram (probe histogram_probe : option Z) (args : stats_args) :
  let runs_output := call_command (cc_command_builder args ["cmd"; "runs"] []) in
  let outcome_ :=
    bug_stats call_command json_loads calculate_metrics make_histogram probe
      histogram_probe args in
  (outcome_ = Exit 1
   <-> probe <> Some 2%Z
       \/ mentions "Connection refused" runs_output = true
       \/ mentions "Name or service not known" runs_output = true
       \/ json_loads runs_output = None)
  /\ (forall code, outcome_ = Exit code -> code = 1%Z \/ code = 2%Z)
  /\ (outcome_ = Exit 2 ->
      exists project results lengths,
        json_loads
          (call_command
             (cc_command_builder args ["cmd"; "results"] ["--name"; project]))
        = Some results
        /\ bug_path_lengths results = inr lengths
        /\ existsb is_none lengths = true).
Proof.
  intros runs_output outcome_. subst outcome_. unfold bug_stats.
  fold runs_output.
  destruct probe as [r|]; [|apply exit_one; by left].
  destruct (r =? 2)%Z eqn:Er; cbn [negb].
  2: { apply exit_one. left. intros [= ->]. discriminate Er. }
  apply Z.eqb_eq in Er as ->.
  destruct (mentions "Connection refused" runs_output) eqn:E1; cbn [orb];
    [apply exit_one; auto|].
  destruct (mentions "Name or service not known" runs_output) eqn:E2;
    [apply exit_one; auto|].
  destruct (json_loads runs_output) as [parsed|] eqn:Ej;
    [|apply exit_one; auto].
  apply exit_other; [intros [H|[H|[H|H]]]; done|].
  intros code.
  destruct (existing_runs parsed) as [e|runs]; [done|].
  destruct (project_names args runs) as [e|projects]; [done|].
  intros Ho. apply results_loop_exit in Ho
    as (-> & p & res & l & _ & Hr & Hl & Hn).
  split; [done|]. by exists p, res, l.
Qed.

Lemma status_one (o : outcome) :
  status o = 1%Z <-> o = Exit 1 \/ exists e, o = Uncaught e.
Proof.
  destruct o as [|code|e]; cbn; split.
  - discriminate.
  - intros [H|[e H]]; discriminate H.
  - intros ->. by left.
  - intros [[= ->]|[e H]]; [reflexivity|discriminate H].
  - intros _. right. by exists e.
  - reflexivity.
Qed.

(** X21: how the reporting tool ends, from its first statement.  The
    process status is 0, 1 or 2.  It is 2 only after a usage error of the
    command line or for a parsed result record whose path-length metric is
    [None]; it is 0 only after the help text or at the end of the script.
    The script itself calls [sys.exit(1)] exactly when [CodeChecker] cannot
    be run properly or, the command line being accepted, the runs query
    reports a refused connection or an unknown host or returns no JSON;
    status 1 is either that or an uncaught exception. *)
Theorem cc_bug_stats_status call_command json_loads calculate_metrics
  make_histogram (probe histogram_probe : option Z) (argv : parsed) :
  let runs_output args :=
    call_command (cc_command_builder args ["cmd"; "runs"] []) in
  let outcome_ :=
    cc_bug_stats call_command json_loads calculate_metrics make_histogram
      probe histogram_probe argv in
  (status outcome_ = 0 \/ status outcome_ = 1 \/ status outcome_ = 2)%Z
  /\ (status outcome_ = 2%Z ->
      probe = Some 2%Z
      /\ (argv = Usage
          \/ exists args project results lengths,
               argv = Args args
               /\ json_loads
                    (call_command
                       (cc_command_builder args ["cmd"; "results"]
                          ["--name"; project]))
                  = Some results
               /\ bug_path_lengths results = inr lengths
               /\ existsb is_none lengths = true))
  /\ (status outcome_ = 0%Z ->
      probe = Some 2%Z
      /\ (argv = Help \/ exists args, argv = Args args /\ outcome_ = Finished))
  /\ (outcome_ = Exit 1
      <-> probe <> Some 2%Z
          \/ exists args,
               argv = Args args
               /\ (mentions "Connection refused" (runs_output args) = true
                   \/ mentions "Name or service not known" (runs_output args)
                      = true
                   \/ json_loads (runs_output args) = None))
  /\ (status outcome_ = 1%Z
      <-> outcome_ = Exit 1 \/ exists e, outcome_ = Uncaught e).
Proof.
  intros runs_output outcome_. subst outcome_. unfold cc_bug_stats.
  destruct probe as [r|].
  2: { split; [cbn; auto|]. split; [done|]. split; [done|].
       split; [|apply status_one]. split; [intros _; by left|done]. }
  destruct (r =? 2)%Z eqn:Er; cbn [negb].
  2: { assert (Some r <> Some 2%Z) as Hr
         by (intros [= ->]; discriminate Er).
       split; [cbn; auto|]. split; [done|]. split; [done|].
       split; [|apply status_one]. split; [intros _; by left|done]. }
  apply Z.eqb_eq in Er as ->.
  destruct argv as [args| |].
  - pose proof (bug_stats_exits call_command json_loads calculate_metrics
                  make_histogram (Some 2%Z) histogram_probe args)
      as (H1 & H2 & H3).
    cbv zeta in H1, H2, H3. fold (runs_output args) in H1.
    set (o := bug_stats _ _ _ _ _ _ _) in *. clearbody o.
    split; [|split; [|split; [|split; [|apply status_one]]]].
    + destruct o as [|code|e]; cbn; auto;
        destruct (H2 code eq_refl) as [-> | ->]; auto.
    + intros Hs. split; [done|]. right.
      destruct o as [|code|e]; cbn in Hs; try done. subst code.
      destruct (H3 eq_refl) as (project & results & lengths & H).
      by exists args, project, results, lengths.
    + intros Hs. split; [done|]. right. exists args. split; [done|].
      destruct o as [|code|e]; cbn in Hs; try done. subst code.
      by destruct (H2 0%Z eq_refl).
    + rewrite H1. split.
      * intros [H|H]; [done|]. right. by exists args.
      * intros [H|(args0 & [= <-] & H)]; [done|by right].
  - split; [cbn; auto|]. split; [intros _; split; [done|by left]|].
    split; [done|]. split; [|apply status_one]. split; [done|].
    intros [H|(args & H & _)]; done.
  - split; [cbn; auto|]. split; [done|].
    split; [intros _; split; [done|by left]|].
    split; [|apply status_one]. split; [done|].
    intros [H|(args & H & _)]; done.
Qed.

Lemma cc_bug_stats_status_witness :
  cc_bug_stats (fun _ => "ssh: Connection refused") loads_example
    (fun _ => None) (fun _ => None) (Some 2%Z) None
    (Args (StatsArgs "localhost" "8001" All false))
  = Exit 1
  /\ cc_bug_stats (fun _ => "") loads_example (fun _ => None) (fun _ => None)
       (Some 2%Z) None Usage = Exit 2.
Proof.
  split; [|reflexivity].
  apply (proj1 (proj2 (proj2 (proj2
           (cc_bug_stats_status (fun _ => "ssh: Connection refused")
              loads_example (fun _ => None) (fun _ => None) (Some 2%Z) None
              (Args (StatsArgs "localhost" "8001" All false))))))).
  right. exists (StatsArgs "localhost" "8001" All false).
  split; [reflexivity|]. left. reflexivity.
Defined.

Lemma make_histogram_unused call_command json_loads calculate_metrics
  mh1 mh2 (args : stats_args) (projects : list string) :
  results_loop call_command json_loads calculate_metrics mh1 args false
    projects
  = results_loop call_command json_loads calculate_metrics mh2 args false
      projects.
Proof.
  induction projects as [|q projects IH]; [reflexivity|].
  cbn [results_loop]. rewrite IH. reflexivity.
Qed.

(** X22: without the histogram the histogram maker is never run.  With
    [--no-histogram], or when [histogram.py] cannot be started or does not
    return 1, the outcome of the tool does not depend on what
    [make_histogram] would do. *)
Theorem histogram_off call_command json_loads calculate_metrics mh1 mh2
  (probe histogram_probe : option Z) (args : stats_args) :
  histogram args = false \/ histogram_probe <> Some 1%Z ->
  bug_stats call_command json_loads calculate_metrics mh1 probe
    histogram_probe args
  = bug_stats call_command json_loads calculate_metrics mh2 probe
      histogram_probe args.
Proof.
  intros H. unfold bug_stats.
  assert (histogram args
          && match histogram_probe with
             | Some 1%Z => true
             | _ => false
             end = false) as ->.
  { destruct H as [->|H]; [done|]. apply andb_false_iff. right.
    destruct histogram_probe as [[|[| |]|]|]; try done. }
  destruct probe as [r|]; [|done].
  destruct (negb (r =? 2)%Z); [done|].
  destruct (_ || _); [done|].
  destruct (json_loads _); [|done].
  destruct (existing_runs _); [done|].
  destruct (project_names _ _); [done|].
  apply make_histogram_unused.
Qed.

Lemma histogram_off_witness :
  bug_stats old_service loads_example (fun _ => None)
    (fun _ => Some OSError) (Some 2%Z) None
    (StatsArgs "localhost" "8001" All true)
  = bug_stats old_service loads_example (fun _ => None) (fun _ => None)
      (Some 2%Z) None (StatsArgs "localhost" "8001" All true).
Proof.
  apply histogram_off. right. discriminate.
Defined.

(** ** The source pattern: letter case *)

Lemma lower_idemp (c : ascii) : Str.lower (Str.lower c) = Str.lower c.
Proof.
  destruct c as [[] [] [] [] [] [] [] []]; reflexivity.
Qed.

Lemma lower_line_feed (c : ascii) :
  Ascii.eqb (Str.lower c) Str.LF = Ascii.eqb c Str.LF.
Proof.
  destruct c as [[] [] [] [] [] [] [] []]; reflexivity.
Qed.

Lemma at_dollar_lower (s : string) :
  Re.at_dollar (Str.lower_str s) = Re.at_dollar s.
Proof.
  destruct s as [|c [|d s]]; try reflexivity.
  cbn [Str.lower_str Re.at_dollar]. apply lower_line_feed.
Qed.

Lemma any_star_lower (k k' : string -> bool) (s : string) :
  (forall t, k' t = k (Str.lower_str t)) ->
  Re.any_star k' s = Re.any_star k (Str.lower_str s).
Proof.
  intros Hk. induction s as [|c s IH]; [apply Hk|].
  cbn [Str.lower_str Re.any_star]. rewrite lower_line_feed, IH.
  by rewrite (Hk (String c s)).
Qed.

Lemma run_lower (r : Re.regex) (k k' : string -> bool) (s : string) :
  (forall t, k' t = k (Str.lower_str t)) ->
  Re.run true r k' s = Re.run true r k (Str.lower_str s).
Proof.
  revert k k' s. induction r as [|c|r1 IH1 r2 IH2|r1 IH1 r2 IH2| |];
    intros k k' s Hk; cbn [Re.run].
  - by apply any_star_lower.
  - destruct s as [|d s]; [reflexivity|].
    cbn [Str.lower_str]. unfold Re.chr_eq. by rewrite lower_idemp, Hk.
  - apply IH1. intros t. by apply IH2.
  - by rewrite (IH1 k k' s Hk), (IH2 k k' s Hk).
  - by rewrite at_dollar_lower, Hk.
  - apply Hk.
Qed.

Lemma lower_str_idemp (s : string) :
  Str.lower_str (Str.lower_str s) = Str.lower_str s.
Proof.
  induction s as [|c s IH]; [reflexivity|].
  cbn [Str.lower_str]. by rewrite lower_idemp, IH.
Qed.

(** X23: the source pattern does not look at the case of ASCII letters:
    a file name and its lower-case form are accepted or rejected together,
    and so are any two names that differ in case only. *)
Theorem src_pattern_ignores_case :
  (forall s, src_pattern_match (Str.lower_str s) = src_pattern_match s)
  /\ (forall s t, Str.lower_str s = Str.lower_str t ->
                  src_pattern_match s = src_pattern_match t).
Proof.
  assert (forall s, src_pattern_match (Str.lower_str s) = src_pattern_match s)
    as H.
  { intros s. unfold src_pattern_match, Re.matches. symmetry.
    by apply run_lower. }
  split; [exact H|]. intros s t Hst. by rewrite <- (H s), <- (H t), Hst.
Qed.

Lemma src_pattern_ignores_case_witness :
  src_pattern_match "Main.CPP" = src_pattern_match "main.cpp".
Proof.
  apply (proj2 src_pattern_ignores_case "Main.CPP" "main.cpp"). reflexivity.
Defined.

(** ** Putting the arguments back into a command line *)

Lemma append_nil_r (s : string) : s ++ "" = s.
Proof. induction s as [|c s IH]; [done|]. by rewrite append_cons, IH. Qed.

Lemma rev_acc_rev_acc (s acc acc' : string) :
  Str.rev_acc (Str.rev_acc s acc) acc' = Str.rev_acc acc (s ++ acc').
Proof.
  revert acc acc'. induction s as [|d s IH]; intros acc acc'; [done|].
  cbn [Str.rev_acc]. rewrite IH. by rewrite append_cons.
Qed.

Lemma rev_rev (s : string) : Str.rev (Str.rev s) = s.
Proof. unfold Str.rev. rewrite rev_acc_rev_acc. apply append_nil_r. Qed.

Lemma split_acc_token (cur t s : string) :
  no_space t = true ->
  Str.split_acc cur (t ++ s) = Str.split_acc (Str.rev_acc t cur) s.
Proof.
  revert cur. induction t as [|c t IH]; intros cur Ht; [done|].
  cbn [no_space] in Ht. apply andb_true_iff in Ht as [Hc Ht].
  apply negb_true_iff in Hc.
  rewrite append_cons. cbn [Str.split_acc Str.rev_acc]. rewrite Hc.
  by apply IH.
Qed.

Lemma split_join (l : list string) :
  Forall (fun t => t <> "" /\ no_space t = true) l ->
  Str.split (Str.join " " l) = l.
Proof.
  induction 1 as [|t l [Hne Ht] Hl IH]; [reflexivity|].
  unfold Str.split in *. destruct l as [|u l].
  - cbn [Str.join]. rewrite <- (append_nil_r t) at 1.
    rewrite split_acc_token by done. cbn [Str.split_acc].
    destruct (Str.rev_acc t "") eqn:E.
    + apply rev_acc_nonempty in E as [E _]. by destruct Hne.
    + rewrite <- E. fold (Str.rev t). fold (Str.rev (Str.rev t)).
      by rewrite rev_rev.
  - change (Str.join " " (t :: u :: l))
      with (t ++ String " " (Str.join " " (u :: l))).
    rewrite split_acc_token by done. cbn [Str.split_acc].
    change (Str.is_space " ") with true. cbn iota.
    destruct (Str.rev_acc t "") eqn:E.
    + apply rev_acc_nonempty in E as [E _]. by destruct Hne.
    + rewrite <- E. fold (Str.rev t). fold (Str.rev (Str.rev t)).
      by rewrite rev_rev, IH.
Qed.

(** X24: the filter is stable under the way the driver rebuilds command
    lines.  Tokens joined with single spaces are split into the same
    tokens again, and a command line made of a command word and the
    filtered arguments of a command has these same arguments after
    filtering. *)
Theorem get_command_arguments_rebuilt :
  (forall l,
      Forall (fun t => t <> "" /\ no_space t = true) l ->
      Str.split (Str.join " " l) = l)
  /\ (forall cmd word,
        word <> "" -> no_space word = true ->
        Str.contains_char "=" word = false ->
        get_command_arguments
          (Str.join " " (word :: get_command_arguments cmd))
        = get_command_arguments cmd).
Proof.
  split; [exact split_join|].
  intros cmd word Hne Hsp Heq.
  assert (Forall (fun t => src_pattern_match t = false
                           /\ no_space t = true /\ t <> "")
            (get_command_arguments cmd)) as Hargs.
  { unfold get_command_arguments. rewrite arg_step_leading.
    apply Forall_forall. intros t Ht.
    apply list_elem_of_In, List.filter_In in Ht as [Ht Hm].
    apply list_elem_of_In in Ht.
    assert (t ∈ Str.split cmd) as Hin.
    { eapply elem_of_sublist; [exact Ht|].
      etrans; [apply tl_sublist|apply drop_while_sublist]. }
    split; [by apply negb_true_iff|]. split.
    - by apply (proj1 (Forall_forall _ _) (split_no_space cmd)).
    - by apply (proj1 (Forall_forall _ _) (split_acc_nonempty "" cmd)). }
  unfold get_command_arguments at 1. rewrite arg_step_leading.
  rewrite split_join.
  - cbn [drop_while]. rewrite Heq. cbn [List.tl].
    induction Hargs as [|t l (Hm & _ & _) _ IH]; [reflexivity|].
    cbn [List.filter]. rewrite Hm. cbn [negb]. by rewrite IH.
  - constructor; [done|].
    eapply Forall_impl; [exact Hargs|]. by intros t (_ & ? & ?).
Qed.

Lemma get_command_arguments_rebuilt_witness :
  get_command_arguments
    (Str.join " " ("clang" :: get_command_arguments "CC -DX=1 foo.cpp -O2"))
  = get_command_arguments "CC -DX=1 foo.cpp -O2".
Proof.
  apply (proj2 get_command_arguments_rebuilt); [discriminate|reflexivity..].
Defined.

(** ** The directory of an artifact *)

Lemma take_app_length (a b : string) :
  Str.take (String.length a) (a ++ b) = a.
Proof.
  induction a as [|c a IH]; [by destruct b|].
  rewrite append_cons. cbn [String.length Str.take]. by rewrite IH.
Qed.

Lemma last_char_endswith (h : string) (c : ascii) :
  last_char h = Some c -> Str.endswith (String c "") h = true.
Proof.
  induction h as [|d h IH]; [done|]. cbn [last_char Str.endswith].
  destruct (last_char h) as [e|] eqn:E.
  - intros [= ->]. rewrite (IH eq_refl). apply orb_true_r.
  - intros [= ->]. destruct h as [|e h].
    + cbn [String.eqb]. by rewrite Ascii.eqb_refl.
    + cbn [last_char] in E. by destruct (last_char h).
Qed.

Lemma lstrip_char_first (c : ascii) (s : string) :
  first_char s <> Some c -> Str.lstrip_char c s = s.
Proof.
  destruct s as [|d s]; [done|]. cbn [first_char Str.lstrip_char].
  intros H. destruct (Ascii.eqb_spec c d) as [->|]; [by destruct H|done].
Qed.

Lemma rev_acc_app (a b acc : string) :
  Str.rev_acc (a ++ b) acc = Str.rev_acc b (Str.rev_acc a acc).
Proof.
  revert acc. induction a as [|c a IH]; intros acc; [reflexivity|].
  rewrite append_cons. cbn [Str.rev_acc]. apply IH.
Qed.

Lemma rstrip_char_sep (h : string) :
  Str.endswith "/" h = false -> Str.rstrip_char "/" (h ++ "/") = h.
Proof.
  intros He. unfold Str.rstrip_char, Str.rev.
  rewrite rev_acc_app. cbn [Str.rev_acc].
  cbn [Str.lstrip_char]. rewrite Ascii.eqb_refl.
  rewrite lstrip_char_first.
  - fold (Str.rev h). fold (Str.rev (Str.rev h)). apply rev_rev.
  - rewrite first_char_rev_acc. cbn [first_char].
    destruct (last_char h) as [c|] eqn:E; [|done].
    intros [= ->]. apply last_char_endswith in E. congruence.
Qed.

Lemma os_path_dirname_split (h base : string) :
  h <> "" -> Str.endswith "/" h = false ->
  Str.contains_char "/" base = false ->
  os_path_dirname (h ++ String "/" base) = h.
Proof.
  intros Hne He Hb. unfold os_path_dirname, Str.rfind.
  rewrite rfind_from_app. cbn [Str.rfind_from].
  rewrite Ascii.eqb_refl, (rfind_from_absent _ _ _ _ Hb).
  unfold Str.slice_to.
  replace (Z.to_nat (0 + Z.of_nat (String.length h) + 1))
    with (String.length (h ++ "/")) by (rewrite append_length; simpl; lia).
  replace (h ++ String "/" base) with ((h ++ "/") ++ base)
    by (by rewrite append_assoc).
  rewrite take_app_length, rstrip_char_sep by done.
  destruct (String.eqb_spec (h ++ "/") "") as [E|_].
  { destruct h; discriminate E. }
  by destruct (String.eqb_spec h "").
Qed.

(** X25: the directory that [generate_ast] makes is the one the AST is
    written into.  For an architecture that is not empty and has no
    separator, and a realpath made of a directory part and a last name,
    the directory passed to [os.makedirs] is the output directory joined
    with ast, the architecture and the directory part, and the artifact is
    that directory, a separator, the last name and .ast. *)
Theorem ast_path_directory (xtudir arch dir name : string) :
  is_realpath (dir ++ String "/" name) = true ->
  Str.endswith "/" dir = false ->
  Str.contains_char "/" name = false ->
  arch <> "" -> Str.contains_char "/" arch = false ->
  let path := ast_path xtudir arch (dir ++ String "/" name) in
  os_path_dirname path = with_sep xtudir ++ "ast/" ++ arch ++ dir
  /\ path = os_path_dirname path ++ "/" ++ name ++ ".ast".
Proof.
  intros Hreal Hdir Hname Harch Hslash path.
  assert (Str.endswith "/" arch = false) as Harch_end.
  { destruct (Str.endswith "/" arch) eqn:E; [|done].
    apply endswith_iff in E as [x ->]. exfalso. clear -Hslash.
    induction x as [|c x IH]; [discriminate Hslash|].
    rewrite append_cons in Hslash. cbn [Str.contains_char] in Hslash.
    apply orb_false_iff in Hslash as [_ Hs]. auto. }
  assert (Str.tail (dir ++ String "/" name) ++ ".ast"
          = Str.tail (dir ++ "/") ++ name ++ ".ast"
          /\ "/" ++ Str.tail (dir ++ "/") = dir ++ "/") as [Htail Hrest].
  { destruct dir as [|c dir]; [by rewrite !append_nil|].
    rewrite !append_cons. cbn [Str.tail].
    unfold is_realpath in Hreal. rewrite append_cons in Hreal.
    cbn [Str.startswith] in Hreal.
    apply andb_true_iff in Hreal as [Hc _].
    rewrite andb_true_r in Hc. apply Ascii.eqb_eq in Hc as <-.
    split; [|done].
    replace (String "/" name) with ("/" ++ name) by done.
    by rewrite <- !append_assoc. }
  assert (path = (with_sep xtudir ++ "ast/" ++ arch ++ dir)
                   ++ String "/" (name ++ ".ast")) as Hpath.
  { subst path. rewrite ast_path_closed_form by done.
    rewrite (slash_free_with_sep arch) by done. rewrite Htail.
    replace ((arch ++ "/") ++ Str.tail (dir ++ "/") ++ name ++ ".ast")
      with (arch ++ ("/" ++ Str.tail (dir ++ "/")) ++ name ++ ".ast")
      by (by rewrite !append_assoc).
    rewrite Hrest. by rewrite !append_assoc. }
  assert (os_path_dirname path = with_sep xtudir ++ "ast/" ++ arch ++ dir)
    as Hd.
  { rewrite Hpath. apply os_path_dirname_split.
    - destruct (with_sep xtudir); discriminate.
    - destruct dir as [|c dir].
      + rewrite append_nil_r.
        replace (with_sep xtudir ++ "ast/" ++ arch)
          with ((with_sep xtudir ++ "ast/") ++ arch)
          by (by rewrite !append_assoc).
        by rewrite endswith_append.
      + replace (with_sep xtudir ++ "ast/" ++ arch ++ String c dir)
          with ((with_sep xtudir ++ "ast/" ++ arch) ++ String c dir)
          by (by rewrite !append_assoc).
        by rewrite endswith_append.
    - clear -Hname. induction name as [|c name IH]; [reflexivity|].
      rewrite append_cons. cbn [Str.contains_char] in *.
      apply orb_false_iff in Hname as [-> Hn]. by rewrite IH. }
  split; [exact Hd|]. rewrite Hd. exact Hpath.
Qed.

Lemma ast_path_directory_witness :
  os_path_dirname (ast_path ".xtu" "x86_64" ("/home/u" ++ String "/" "a.c"))
  = with_sep ".xtu" ++ "ast/" ++ "x86_64" ++ "/home/u".
Proof.
  apply (ast_path_directory ".xtu" "x86_64" "/home/u" "a.c");
    reflexivity || discriminate.
Defined.
